(** * S1NU5-Graphics: the tile renderer (Renderer.cpp) and Vector3.h

    A shallow embedding of [YAR::Renderer] and of [YAM::Vector3],
    followed by the properties of the renderer's specification and by
    further properties of the two.

    Conventions.
    - [flt] is IEEE binary32: [std::max(0.f, Vector3::Dot(..))] in
      [SamplePixel] only type-checks when [flt] is [float].  Its
      operations are the ones of the standard library's [SpecFloat] at
      precision 24 and maximal exponent 128, every operation rounded to
      nearest even once.  [SpecFloat] has one NaN: the sign and the
      payload of a NaN are not modelled, and an equation between floats
      says nothing about them.
    - [uint32_t] values are [Z] with the reduction modulo [2^32] written
      where the source computes one.
    - [std::vector::operator[]] checks nothing, and an access outside
      the vector is undefined.  The code is run in two ways.  In [YAR]
      every access goes through: the sample accumulator is a row of cells
      addressed from [samples.data()], the first [samplesPerPixel] belong
      to the vector, what lies behind them is the parameter [heap], and
      every indexed access is recorded in the trace of the worker.  This
      run shows which accesses the code makes; that it has a result says
      nothing about the source.  In [Strict] the code is run as the
      language defines it: an access outside the vector, the overflow of
      an [int] counter and an allocation the allocator does not grant
      leave the call without a result.  The properties that depend on
      a call returning are stated on [Strict]; those that list the
      accesses of the code, or that no run can break, on [YAR].
    - The OpenMP loop of [Render] is run in the order of the tile ids;
      the workers side by side are the subject of [Pool].  The progress
      counter and the log line are not modelled. *)

From Stdlib Require Import ZArith List Bool Lia Permutation.
From Stdlib Require Import Floats.SpecFloat.
From stdpp Require Import base option list.

Open Scope Z_scope.

(* ================================================================== *)
(** ** YetAnotherMathLib: [flt] and [Vector3] *)

Module YAM.

Definition flt : Type := spec_float.

Definition prec : Z := 24.
Definition emax : Z := 128.

Definition fadd : flt -> flt -> flt := SFadd prec emax.
Definition fsub : flt -> flt -> flt := SFsub prec emax.
Definition fmul : flt -> flt -> flt := SFmul prec emax.
Definition fdiv : flt -> flt -> flt := SFdiv prec emax.
Definition fsqrt : flt -> flt := SFsqrt prec emax.
Definition fneg : flt -> flt := SFopp.
Definition fltb : flt -> flt -> bool := SFltb.

(** Conversion of an integer ([static_cast<flt>], integer literals). *)
Definition of_Z (m : Z) : flt := binary_normalize prec emax m 0 false.

(** [std::numeric_limits<float>::max()]. *)
Definition FLT_MAX : flt := SFmax_float prec emax.

(** The literal [0.1f]: the binary32 number nearest to one tenth. *)
Definition f0_1 : flt := fdiv (of_Z 1) (of_Z 10).

(** [std::max(a, b)] is [(a < b) ? b : a], [std::min(a, b)] is
    [(b < a) ? b : a]. *)
Definition fmax (a b : flt) : flt := if fltb a b then b else a.
Definition fmin (a b : flt) : flt := if fltb b a then b else a.

Record Vector3 : Type := mkVector3 { x : flt; y : flt; z : flt }.

(** The three constructors of the class. *)
Definition Vector3_0 : Vector3 := mkVector3 (of_Z 0) (of_Z 0) (of_Z 0).
Definition Vector3_1 (a : flt) : Vector3 := mkVector3 a a a.
Definition Vector3_3 (X Y Z : flt) : Vector3 := mkVector3 X Y Z.

Definition Length (v : Vector3) : flt :=
  fsqrt (fadd (fadd (fmul (x v) (x v)) (fmul (y v) (y v))) (fmul (z v) (z v))).

Definition SquaredLength (v : Vector3) : flt :=
  fadd (fadd (fmul (x v) (x v)) (fmul (y v) (y v))) (fmul (z v) (z v)).

Definition Dot (a b : Vector3) : flt :=
  fadd (fadd (fmul (x a) (x b)) (fmul (y a) (y b))) (fmul (z a) (z b)).

(** [operator-()], [operator+], [operator-], [operator*], [operator/]. *)
Definition neg (v : Vector3) : Vector3 :=
  mkVector3 (fneg (x v)) (fneg (y v)) (fneg (z v)).
Definition add (a b : Vector3) : Vector3 :=
  mkVector3 (fadd (x a) (x b)) (fadd (y a) (y b)) (fadd (z a) (z b)).
Definition sub (a b : Vector3) : Vector3 :=
  mkVector3 (fsub (x a) (x b)) (fsub (y a) (y b)) (fsub (z a) (z b)).
Definition mul (v : Vector3) (scalar : flt) : Vector3 :=
  mkVector3 (fmul (x v) scalar) (fmul (y v) scalar) (fmul (z v) scalar).
Definition div (v : Vector3) (scalar : flt) : Vector3 :=
  mkVector3 (fdiv (x v) scalar) (fdiv (y v) scalar) (fdiv (z v) scalar).

(** Defines.h is not part of the sources at hand: its two constants
    are parameters. *)
Class Defines : Type := { SmallNumber : flt; SmallFloat : flt }.

(** [Normal] keeps the length in a [double]; a binary32 number survives
    the trip to [double] and back unchanged, so the length is used as
    it is, and compared with [SmallNumber] as a binary32 number. *)
Definition Normal `{Defines} (v : Vector3) : Vector3 :=
  let length := Length v in
  if fltb length SmallNumber then Vector3_1 (of_Z 0) else div v length.

(** *** The rest of the class

    [Angle] needs [acos] and the printing needs the formatting of
    [std::ostream]; neither is modelled. *)

(** [std::abs] and [==] on binary32. *)
Definition fabs : flt -> flt := SFabs.
Definition feqb : flt -> flt -> bool := SFeqb.

(** [IsNear(vector3, error)], and the call that leaves [error] to its
    default, [SmallNumber]. *)
Definition IsNear (v vector3 : Vector3) (error : flt) : bool :=
  fltb (fabs (fsub (Length v) (Length vector3))) error.
Definition IsNear_default `{Defines} (v vector3 : Vector3) : bool :=
  IsNear v vector3 SmallNumber.

Definition Abs (v : Vector3) : Vector3 :=
  mkVector3 (fabs (x v)) (fabs (y v)) (fabs (z v)).

Definition Cross (v rhs : Vector3) : Vector3 :=
  mkVector3 (fsub (fmul (y v) (z rhs)) (fmul (z v) (y rhs)))
            (fsub (fmul (z v) (x rhs)) (fmul (x v) (z rhs)))
            (fsub (fmul (x v) (y rhs)) (fmul (y v) (x rhs))).

(** [operator+=], [operator-=], [operator*=], [operator/=]: the object
    after the call. *)
Definition add_assign (v another : Vector3) : Vector3 := add v another.
Definition sub_assign (v another : Vector3) : Vector3 := sub v another.
Definition mul_assign (v : Vector3) (scalar : flt) : Vector3 := mul v scalar.
Definition div_assign (v : Vector3) (scalar : flt) : Vector3 := div v scalar.

(** The friend [operator*(flt scalar, const Vector3& vector)]. *)
Definition scale (scalar : flt) (vector : Vector3) : Vector3 := mul vector scalar.

(** [operator==], [operator!=], [operator<], [operator>], [operator<=],
    [operator>=]. *)
Definition Vector3_eq (v rhs : Vector3) : bool :=
  feqb (x v) (x rhs) && feqb (y v) (y rhs) && feqb (z v) (z rhs).
Definition Vector3_ne (v rhs : Vector3) : bool := negb (Vector3_eq rhs v).
Definition Vector3_lt (v rhs : Vector3) : bool := fltb (Length v) (Length rhs).
Definition Vector3_gt (v rhs : Vector3) : bool := Vector3_lt rhs v.
Definition Vector3_le (v rhs : Vector3) : bool := negb (Vector3_lt rhs v).
Definition Vector3_ge (v rhs : Vector3) : bool := negb (Vector3_lt v rhs).

End YAM.

(* ================================================================== *)
(** ** Integers and loops *)

Definition u32 (v : Z) : Z := v mod 2 ^ 32.

(** A loop whose body may give up: [for (x : l) s = body x s]. *)
Fixpoint forEach {S X : Type} (body : X -> S -> option S) (l : list X) (s : S)
  : option S :=
  match l with
  | [] => Some s
  | v :: l' => match body v s with
               | Some s' => forEach body l' s'
               | None => None
               end
  end.

(* ================================================================== *)
(** ** The state of one worker *)

Module Worker.
Import YAM.

(** What a worker does that the properties speak about, in the order
    it does it. *)
Inductive event : Type :=
| Sampled (y x : Z)          (* a call of [SamplePixel] *)
| Read (k : Z)               (* [samples[k]] read *)
| Written (k : Z)            (* [samples[k]] assigned *)
| Locked                     (* [std::scoped_lock lock{colorBufferMutex}] *)
| Pixel (px py c : Z)        (* [colorBuffer->SetPix(px, py, c)] *)
| Unlocked.                  (* the end of the scope of [lock] *)

(** [samples k] is what [samples[k]] denotes; [trace] lists the events,
    the latest first. *)
Record t : Type := mk { samples : Z -> Vector3; trace : list event }.

Definition emit (e : event) (w : t) : t := mk (samples w) (e :: trace w).

(** A computation of a worker; [None] when a loop has used up its
    fuel and, in [Strict], when the computation has no result. *)
Definition M (A : Type) : Type := t -> option (A * t).

#[export] Instance M_ret : MRet M := fun A (a : A) w => Some (a, w).
#[export] Instance M_bind : MBind M := fun A B (k : A -> M B) (m : M A) w =>
  match m w with
  | Some (a, w') => k a w'
  | None => None
  end.
Definition stuck {A} : M A := fun _ => None.

(** [samples[k]] read and assigned with every access let through and
    recorded, also outside the vector, where the source is undefined:
    [Strict.load] and [Strict.store] have no result there. *)
Definition load (k : Z) : M Vector3 :=
  fun w => Some (samples w k, emit (Read k) w).
Definition store (k : Z) (v : Vector3) : M unit :=
  fun w => Some (tt, mk (fun k' => if k' =? k then v else samples w k')
                        (Written k :: trace w)).

(** [for (Vector3& sample : samples) sample = Vector3{0.f};] over a
    vector of [n] elements.  The iterators stay inside the vector and
    nothing is indexed. *)
Definition clear (n : Z) : M unit :=
  fun w => Some (tt, mk (fun k => if (0 <=? k) && (k <? n)
                                  then Vector3_1 (of_Z 0) else samples w k)
                        (trace w)).

(** [samples.resize(n)] on a fresh vector: [n] zero vectors followed by
    whatever the heap holds. *)
Definition resize (heap : Z -> Vector3) (n : Z) : t :=
  mk (fun k => if (0 <=? k) && (k <? n) then Vector3_0 else heap k) [].

Fixpoint foldM {A X} (body : A -> X -> M A) (l : list X) (a : A) : M A :=
  match l with
  | [] => mret a
  | v :: l' => a' ← body a v; foldM body l' a'
  end.
End Worker.
Export (hints) Worker.

(* ================================================================== *)
(** ** YetAnotherRenderer *)

Module YAR.
Import YAM.

(** Modelled from the spec: Buffer.h is missing.  The framebuffer is a
    "fixed-size 2D pixel store with get/set-by-coordinate and bulk
    fill" of packed colours; the pixels are kept row by row, as the
    writer that receives [GetData()] with the two sizes reads them. *)
Record Buffer : Type := mkBuffer { sizeX : Z; sizeY : Z; data : list Z }.

Definition GetSizeX (b : Buffer) : Z := sizeX b.
Definition GetSizeY (b : Buffer) : Z := sizeY b.
Definition GetData (b : Buffer) : list Z := data b.

(** Modelled from the spec: the constructor of the missing Buffer, a
    store of [sizeX * sizeY] pixels. *)
Definition Buffer_new (sx sy : Z) : Buffer :=
  mkBuffer sx sy (replicate (Z.to_nat (sx * sy)) 0).

(** Modelled from the spec: [FillColor] of the missing Buffer "sets
    every pixel to the given packed value". *)
Definition FillColor (c : Z) (b : Buffer) : Buffer :=
  mkBuffer (sizeX b) (sizeY b) (replicate (length (data b)) c).

(** Modelled from the spec: [SetPix] of the missing Buffer, the
    set-by-coordinate of a store of fixed size. *)
Definition SetPix (px py : Z) (c : Z) (b : Buffer) : Buffer :=
  mkBuffer (sizeX b) (sizeY b)
           (<[Z.to_nat (py * sizeX b + px) := c]> (data b)).

Definition GetPix (px py : Z) (b : Buffer) : option Z :=
  data b !! Z.to_nat (py * sizeX b + px).

Record RenderBounds : Type :=
  mkRenderBounds { minX : Z; minY : Z; maxX : Z; maxY : Z }.


(** Camera.h, Renderable.h and the colour class are missing as well:
    rays, cameras and colours are an interface. *)
Class Scene : Type := {
  Ray : Type;
  Camera : Type;
  Color : Type;
  GetRay : Camera -> Z -> Z -> Ray;
  ToVector : Color -> Vector3;
  FromVector : Vector3 -> Color;
  hex : Color -> Z
}.

Section WithScene.
Context `{Defines} `{Scene}.

Record Material : Type := mkMaterial { color : Color }.

(** [material] is a pointer in the source; the scene is trusted to
    set it on every hit it reports. *)
Record RenderHitInfo : Type :=
  mkRenderHitInfo { distance : flt; normal : Vector3; material : Material }.

(** [bool Trace(const Ray&, RenderHitInfo&)]: [Some h] when the call
    returns true and has filled in [h]. *)
Record Renderable : Type := mkRenderable { Trace : Ray -> option RenderHitInfo }.

Record Renderer : Type := mkRenderer {
  colorBuffer : Buffer;
  samplesPerPixel : Z;
  bVariableSamplesPerPixel : bool;
  tilesPerRow : Z;
  renderables : list Renderable
}.

Definition Renderer_new (sx sy : Z) : Renderer :=
  mkRenderer (Buffer_new sx sy) 8 true 8 [].

Definition AddRenderable (renderable : Renderable) (r : Renderer) : Renderer :=
  mkRenderer (colorBuffer r) (samplesPerPixel r) (bVariableSamplesPerPixel r)
             (tilesPerRow r) (renderables r ++ [renderable]).

Definition withBuffer (b : Buffer) (r : Renderer) : Renderer :=
  mkRenderer b (samplesPerPixel r) (bVariableSamplesPerPixel r)
             (tilesPerRow r) (renderables r).

(** *** SamplePixel *)

(** [closestHit] together with [wasIntersection]: [None] while
    [wasIntersection] is false, when only the distance of
    [closestHit], the largest float, has a value. *)
Definition closestDistance (closestHit : option RenderHitInfo) : flt :=
  match closestHit with
  | Some h => distance h
  | None => FLT_MAX
  end.

Definition closestStep (ray : Ray) (closestHit : option RenderHitInfo)
           (renderable : Renderable) : option RenderHitInfo :=
  match Trace renderable ray with
  | Some hitInfo =>
      if fltb (distance hitInfo) (closestDistance closestHit)
      then Some hitInfo else closestHit
  | None => closestHit
  end.

Definition lightDir : Vector3 :=
  Vector3_3 (fneg (of_Z 1)) (fneg (of_Z 1)) (of_Z 1).

Definition shade (closestHit : RenderHitInfo) : Vector3 :=
  let objColor := ToVector (color (material closestHit)) in
  let lightDotNorm :=
    fmax (of_Z 0) (Dot (normal closestHit) (neg (Normal lightDir))) in
  let lightValue := fmin (of_Z 1) (fadd lightDotNorm f0_1) in
  mul objColor lightValue.

Definition SamplePixel (r : Renderer) (camera : Camera) (y x : Z) : Vector3 :=
  let ray := GetRay camera x y in
  match fold_left (closestStep ray) (renderables r) None with
  | Some closestHit => shade closestHit
  | None => Vector3_1 (of_Z 0)
  end.

(** *** RenderWorker, one pixel

    The body of the two loops over the rows [i] and the columns [j] of a
    tile, lines 67-92:
<<
      for (Vector3& sample : samples) { sample = Vector3{0.f}; }
      uint32_t numSamples = 0;
      for (uint32_t sampleID = 0; sampleID < 2; ++sampleID) {
          samples[sampleID] = SamplePixel(camera, i, j);
          numSamples++;
      }
      if (!bVariableSamplesPerPixel
          || (samples[0] - samples[i]).Length() > SmallFloat) {
          for (int sampleID = 2; sampleID < numSamples; ++sampleID) {
              samples[sampleID] = SamplePixel(camera, i, j);
              numSamples++;
          }
      }
      Vector3 finalColor = Vector3{0};
      for (uint32_t sampleID = 0; sampleID < numSamples; ++sampleID) {
          finalColor += samples[sampleID];
      }
      {
          std::scoped_lock lock{colorBufferMutex};
          colorBuffer->SetPix(j, i,
            Color::FromVector(finalColor / static_cast<flt>(numSamples)).hex);
      }
>>
*)

(** A call of [SamplePixel] by a worker. *)
Definition sample (r : Renderer) (camera : Camera) (y x : Z) : Worker.M Vector3 :=
  fun w => Some (SamplePixel r camera y x, Worker.emit (Worker.Sampled y x) w).

(** Lines 72-75: the two samples every pixel gets. *)
Definition initialSamples (r : Renderer) (camera : Camera) (i j : Z)
           (numSamples : Z) : Worker.M Z :=
  Worker.foldM
    (fun numSamples sampleID =>
       v ← sample r camera i j;
       Worker.store sampleID v;;
       mret (u32 (numSamples + 1)))
    (seqZ 0 2) numSamples.

(** Line 77: [!bVariableSamplesPerPixel ||
    (samples[0] - samples[i]).Length() > SmallFloat], the right
    operand evaluated only when the left one is false. *)
Definition needsMoreSamples (r : Renderer) (i : Z) : Worker.M bool :=
  if negb (bVariableSamplesPerPixel r) then mret true
  else
    a ← Worker.load 0;
    b ← Worker.load i;
    mret (fltb SmallFloat (Length (sub a b))).

(** Lines 78-81: [for (int sampleID = 2; sampleID < numSamples;
    ++sampleID)], the comparison made in [uint32_t].  The body
    increments the bound with the counter, so the loop carries
    fuel. *)
Fixpoint extraSamples (fuel : nat) (r : Renderer) (camera : Camera) (i j : Z)
         (sampleID numSamples : Z) : Worker.M Z :=
  if u32 sampleID <? numSamples then
    match fuel with
    | O => Worker.stuck
    | S fuel' =>
        v ← sample r camera i j;
        Worker.store sampleID v;;
        extraSamples fuel' r camera i j (sampleID + 1) (u32 (numSamples + 1))
    end
  else mret numSamples.

(** Lines 84-87. *)
Definition sumSamples (numSamples : Z) : Worker.M Vector3 :=
  Worker.foldM
    (fun finalColor sampleID =>
       s ← Worker.load sampleID; mret (add finalColor s))
    (seqZ 0 numSamples) (Vector3_1 (of_Z 0)).

(** Lines 67-77: the accumulator is cleared, the two samples are
    taken and the test of line 77 is made; the result is [numSamples]
    and the outcome of the test. *)
Definition initialPhase (r : Renderer) (camera : Camera) (i j : Z)
  : Worker.M (Z * bool) :=
  Worker.clear (samplesPerPixel r);;
  numSamples ← initialSamples r camera i j 0;
  more ← needsMoreSamples r i;
  mret (numSamples, more).

(** Lines 67-87: the samples of pixel [(j, i)]; the result is
    [numSamples] and [finalColor]. *)
Definition samplePixelLoop (fuel : nat) (r : Renderer) (camera : Camera)
           (i j : Z) : Worker.M (Z * Vector3) :=
  '(numSamples, more) ← initialPhase r camera i j;
  numSamples ← (if more : bool
                then extraSamples fuel r camera i j 2 numSamples
                else mret numSamples);
  finalColor ← sumSamples numSamples;
  mret (numSamples, finalColor).

(** Lines 89-92: the colour written for a sum of [numSamples]
    samples. *)
Definition pixelHex (numSamples : Z) (finalColor : Vector3) : Z :=
  hex (FromVector (div finalColor (of_Z numSamples))).

(** Lines 65-93 for one pixel, on the worker and the framebuffer:
    the samples, then the write inside the scope of the lock. *)
Definition renderPixel (fuel : nat) (r : Renderer) (camera : Camera)
           (i j : Z) (st : Worker.t * Buffer) : option (Worker.t * Buffer) :=
  match samplePixelLoop fuel r camera i j (fst st) with
  | Some ((numSamples, finalColor), w) =>
      let c := pixelHex numSamples finalColor in
      Some (Worker.emit Worker.Unlocked
              (Worker.emit (Worker.Pixel j i c) (Worker.emit Worker.Locked w)),
            SetPix j i c (snd st))
  | None => None
  end.

(** *** RenderWorker and Render *)

Definition RenderWorker (fuel : nat) (heap : Z -> Vector3) (r : Renderer)
           (camera : Camera) (renderBounds : RenderBounds) (buf : Buffer)
  : option (Worker.t * Buffer) :=
  let samples := Worker.resize heap (samplesPerPixel r) in
  forEach
    (fun i => forEach (fun j => renderPixel fuel r camera i j)
                      (seqZ (minX renderBounds)
                            (maxX renderBounds - minX renderBounds)))
    (seqZ (minY renderBounds) (maxY renderBounds - minY renderBounds))
    (samples, buf).

(** Lines 41-48, all of it in [uint32_t]. *)
Definition tileBounds (r : Renderer) (tileID : Z) : RenderBounds :=
  let tileY := tileID / tilesPerRow r in
  let tileX := u32 (tileID - u32 (tileY * tilesPerRow r)) in
  let bminX := u32 (tileX * GetSizeX (colorBuffer r)) / tilesPerRow r in
  let bminY := u32 (tileY * GetSizeY (colorBuffer r)) / tilesPerRow r in
  mkRenderBounds bminX bminY
    (u32 (bminX + GetSizeX (colorBuffer r) / tilesPerRow r))
    (u32 (bminY + GetSizeY (colorBuffer r) / tilesPerRow r)).

Definition tilesNum (r : Renderer) : Z := u32 (tilesPerRow r * tilesPerRow r).

(** Lines 28-55.  [tileID] is an [int] compared with [tilesNum] in
    [uint32_t]: it runs through [0, tilesNum).  The vector [numbers] is
    filled and never read.  Here the counters are taken through
    [0, tilesNum) whatever [tilesNum] is and the filling of [numbers] is
    left out; [Strict.Render] has the bound of [int] and the
    allocation. *)

Definition Render (fuel : nat) (heap : Z -> Vector3) (camera : Camera)
           (r : Renderer) : option Renderer :=
  let filled := FillColor 0xff000000 (colorBuffer r) in
  (fun buf => withBuffer buf r) <$>
    forEach (fun tileID buf =>
               snd <$> RenderWorker fuel heap r camera (tileBounds r tileID) buf)
            (seqZ 0 (tilesNum r)) filled.

End WithScene.
End YAR.

(* ================================================================== *)
(** ** The renderer as the language defines it *)

(** The per-pixel loop, [RenderWorker] and [Render] once more, line by
    line as in [YAR], with what [YAR] lets through left without a
    result:
    - [samples[k]] outside the vector ([samples] has [samplesPerPixel]
      elements from [samples.resize] on);
    - the increment of an [int] counter at its largest value;
    - [std::vector] growing beyond [capacity], the number of elements
      up to which the allocator of the machine serves a vector
      ([std::bad_alloc] ends the call). *)
Module Strict.
Import YAM YAR.

(** [std::numeric_limits<int>::max()]. *)
Definition INT_MAX : Z := 2 ^ 31 - 1.

(** [k] is an index of a vector of [n] elements. *)
Definition inside (n k : Z) : bool := (0 <=? k) && (k <? n).

(** [samples[k]] read and assigned, [samples] a vector of [n]
    elements. *)
Definition load (n k : Z) : Worker.M Vector3 :=
  if inside n k then Worker.load k else Worker.stuck.
Definition store (n k : Z) (v : Vector3) : Worker.M unit :=
  if inside n k then Worker.store k v else Worker.stuck.

(** [samples.resize(n)] on a fresh vector. *)
Definition resize (capacity : Z) (heap : Z -> Vector3) (n : Z) : option Worker.t :=
  if n <=? capacity then Some (Worker.resize heap n) else None.

(** [for (int i = 0; i < n; ++i)] with [n] a [uint32_t], the comparison
    made in [uint32_t]: the values of [i] in the body.  The last
    increment makes [i] equal to [n], which no [int] is when [n] is
    above [INT_MAX]. *)
Definition intCounter (n : Z) : option (list Z) :=
  if n <=? INT_MAX then Some (seqZ 0 n) else None.

(** Lines 32-35: [numbers] filled with [0 .. tilesNum - 1] by
    [push_back]. *)
Definition fillNumbers (capacity : Z) (tilesNum : Z) : option (list Z) :=
  numbers ← intCounter tilesNum;
  if tilesNum <=? capacity then Some numbers else None.

Section WithScene.
Context `{Defines} `{Scene}.

(** Lines 72-75. *)
Definition initialSamples (r : Renderer) (camera : Camera) (i j : Z)
           (numSamples : Z) : Worker.M Z :=
  Worker.foldM
    (fun numSamples sampleID =>
       v ← sample r camera i j;
       store (samplesPerPixel r) sampleID v;;
       mret (u32 (numSamples + 1)))
    (seqZ 0 2) numSamples.

(** Line 77. *)
Definition needsMoreSamples (r : Renderer) (i : Z) : Worker.M bool :=
  if negb (bVariableSamplesPerPixel r) then mret true
  else
    a ← load (samplesPerPixel r) 0;
    b ← load (samplesPerPixel r) i;
    mret (fltb SmallFloat (Length (sub a b))).

(** Lines 78-81, with the [int] counter [sampleID]. *)
Fixpoint extraSamples (fuel : nat) (r : Renderer) (camera : Camera) (i j : Z)
         (sampleID numSamples : Z) : Worker.M Z :=
  if u32 sampleID <? numSamples then
    match fuel with
    | O => Worker.stuck
    | S fuel' =>
        v ← sample r camera i j;
        store (samplesPerPixel r) sampleID v;;
        if sampleID + 1 <=? INT_MAX
        then extraSamples fuel' r camera i j (sampleID + 1) (u32 (numSamples + 1))
        else Worker.stuck
    end
  else mret numSamples.

(** Lines 84-87. *)
Definition sumSamples (r : Renderer) (numSamples : Z) : Worker.M Vector3 :=
  Worker.foldM
    (fun finalColor sampleID =>
       s ← load (samplesPerPixel r) sampleID; mret (add finalColor s))
    (seqZ 0 numSamples) (Vector3_1 (of_Z 0)).

(** Lines 67-77. *)
Definition initialPhase (r : Renderer) (camera : Camera) (i j : Z)
  : Worker.M (Z * bool) :=
  Worker.clear (samplesPerPixel r);;
  numSamples ← initialSamples r camera i j 0;
  more ← needsMoreSamples r i;
  mret (numSamples, more).

(** Lines 67-87. *)
Definition samplePixelLoop (fuel : nat) (r : Renderer) (camera : Camera)
           (i j : Z) : Worker.M (Z * Vector3) :=
  '(numSamples, more) ← initialPhase r camera i j;
  numSamples ← (if more : bool
                then extraSamples fuel r camera i j 2 numSamples
                else mret numSamples);
  finalColor ← sumSamples r numSamples;
  mret (numSamples, finalColor).

(** Lines 65-93 for one pixel. *)
Definition renderPixel (fuel : nat) (r : Renderer) (camera : Camera)
           (i j : Z) (st : Worker.t * Buffer) : option (Worker.t * Buffer) :=
  match samplePixelLoop fuel r camera i j (fst st) with
  | Some ((numSamples, finalColor), w) =>
      let c := pixelHex numSamples finalColor in
      Some (Worker.emit Worker.Unlocked
              (Worker.emit (Worker.Pixel j i c) (Worker.emit Worker.Locked w)),
            SetPix j i c (snd st))
  | None => None
  end.

(** Lines 61-95. *)
Definition RenderWorker (capacity : Z) (fuel : nat) (heap : Z -> Vector3)
           (r : Renderer) (camera : Camera) (renderBounds : RenderBounds)
           (buf : Buffer) : option (Worker.t * Buffer) :=
  samples ← resize capacity heap (samplesPerPixel r);
  forEach
    (fun i => forEach (fun j => renderPixel fuel r camera i j)
                      (seqZ (minX renderBounds)
                            (maxX renderBounds - minX renderBounds)))
    (seqZ (minY renderBounds) (maxY renderBounds - minY renderBounds))
    (samples, buf).

(** Lines 28-55: the fill, the filling of [numbers], then the tiles
    under the [int] counter [tileID]. *)
Definition Render (capacity : Z) (fuel : nat) (heap : Z -> Vector3)
           (camera : Camera) (r : Renderer) : option Renderer :=
  let filled := FillColor 0xff000000 (colorBuffer r) in
  numbers ← fillNumbers capacity (tilesNum r);
  tileIDs ← intCounter (tilesNum r);
  (fun buf => withBuffer buf r) <$>
    forEach (fun tileID buf =>
               snd <$> RenderWorker capacity fuel heap r camera
                                    (tileBounds r tileID) buf)
            tileIDs filled.
End WithScene.
End Strict.

(* ================================================================== *)
(** ** Notions of the specification *)

Module Spec.
Import YAM YAR.

(** The arithmetic mean of a list of samples as binary32 computes it:
    the sum from zero, left to right, divided by the count. *)
Definition mean (l : list Vector3) : Vector3 :=
  div (fold_left add l (Vector3_1 (of_Z 0))) (of_Z (Z.of_nat (length l))).

(** The number of samples taken among some events. *)
Definition isSampled (e : Worker.event) : bool :=
  match e with Worker.Sampled _ _ => true | _ => false end.
Definition samplesTaken (l : list Worker.event) : nat :=
  length (List.filter isSampled l).

(** The indexed accesses among some events stay inside a vector of [n]
    elements. *)
Definition inRangeEvent (n : Z) (e : Worker.event) : Prop :=
  match e with
  | Worker.Read k | Worker.Written k => 0 <= k < n
  | _ => True
  end.
Definition inRange (n : Z) (l : list Worker.event) : Prop :=
  Forall (inRangeEvent n) l.

(** Two framebuffers of one shape: the same sizes and as many pixels. *)
Definition sameShape (a b : Buffer) : Prop :=
  sizeX a = sizeX b /\ sizeY a = sizeY b /\ length (data a) = length (data b).

(** A pixel of the half-open rectangle. *)
Definition inBounds (b : RenderBounds) (px py : Z) : Prop :=
  (minX b <= px < maxX b) /\ (minY b <= py < maxY b).

Definition background : Z := 0xff000000.

(** A binary32 number that is neither an infinity nor a NaN; one that
    is a NaN. *)
Definition isFinite (f : flt) : bool :=
  match f with S754_zero _ | S754_finite _ _ _ => true | _ => false end.
Definition isNaN (f : flt) : bool :=
  match f with S754_nan => true | _ => false end.

Section WithScene.
Context `{Defines} `{Scene}.

(** The sizes and the number of tiles per row are 32-bit values. *)
Definition wellTyped (r : Renderer) : Prop :=
  0 <= GetSizeX (colorBuffer r) < 2 ^ 32 /\
  0 <= GetSizeY (colorBuffer r) < 2 ^ 32 /\
  0 <= tilesPerRow r < 2 ^ 32.

(** The tiles of [Render] are pairwise disjoint and every pixel of
    the image lies in one of them. *)
Definition partitions (r : Renderer) : Prop :=
  (forall t1 t2 px py,
      0 <= t1 < tilesNum r -> 0 <= t2 < tilesNum r ->
      inBounds (tileBounds r t1) px py ->
      inBounds (tileBounds r t2) px py -> t1 = t2) /\
  (forall px py,
      0 <= px < GetSizeX (colorBuffer r) ->
      0 <= py < GetSizeY (colorBuffer r) ->
      exists t, 0 <= t < tilesNum r /\ inBounds (tileBounds r t) px py).

(** The hits the objects of the scene report for the ray of pixel
    [(x, y)]. *)
Definition reported (r : Renderer) (camera : Camera) (y x : Z)
           (h : RenderHitInfo) : Prop :=
  exists obj, obj ∈ renderables r /\ Trace obj (GetRay camera x y) = Some h.

(** [min(1, max(0, dot(normal, -normalize(lightDirection))) + 0.1)]
    for the light direction [(-1, -1, 1)]. *)
Definition lightValue (n : Vector3) : flt :=
  let lightDirection := mkVector3 (fneg (of_Z 1)) (fneg (of_Z 1)) (of_Z 1) in
  fmin (of_Z 1) (fadd (fmax (of_Z 0) (Dot n (neg (Normal lightDirection)))) f0_1).

(** The sample is the shaded colour of a reported hit that no
    reported hit undercuts. *)
Definition shadesClosest (r : Renderer) (camera : Camera) (y x : Z) : Prop :=
  exists h,
    reported r camera y x h /\
    (forall h', reported r camera y x h' ->
                fltb (distance h') (distance h) = false) /\
    SamplePixel r camera y x =
      mul (ToVector (color (material h))) (lightValue (normal h)).
End WithScene.
End Spec.

(* ================================================================== *)
(** ** What a pass comes to *)

(** Closed forms of what [RenderWorker] and [Render] compute and do,
    shown below to be what they compute and do. *)
Module Closed.
Import YAM YAR.

(** The pixel a write at [(px, py)] lands on in a framebuffer [w]
    wide. *)
Definition pixelIndex (w px py : Z) : nat := Z.to_nat (py * w + px).

(** The event writes the pixel of index [k]. *)
Definition writesAt (w : Z) (k : nat) (e : Worker.event) : bool :=
  match e with
  | Worker.Pixel px py _ => Nat.eqb (pixelIndex w px py) k
  | _ => false
  end.

Section WithScene.
Context `{Defines} `{Scene}.

(** The colour written for pixel [(j, i)]: the one of the mean of two
    samples. *)
Definition pixelColour (r : Renderer) (camera : Camera) (i j : Z) : Z :=
  let s := SamplePixel r camera i j in
  hex (FromVector (Spec.mean [s; s])).

Definition paintPixel (r : Renderer) (camera : Camera) (i j : Z)
           (buf : Buffer) : Buffer :=
  SetPix j i (pixelColour r camera i j) buf.

Definition paintTile (r : Renderer) (camera : Camera) (b : RenderBounds)
           (buf : Buffer) : Buffer :=
  fold_left
    (fun buf i =>
       fold_left (fun buf j => paintPixel r camera i j buf)
                 (seqZ (minX b) (maxX b - minX b)) buf)
    (seqZ (minY b) (maxY b - minY b)) buf.

(** The framebuffer after a pass, the tiles taken one after the other. *)
Definition paint (r : Renderer) (camera : Camera) : Buffer :=
  fold_left (fun buf tileID => paintTile r camera (tileBounds r tileID) buf)
            (seqZ 0 (tilesNum r))
            (FillColor Spec.background (colorBuffer r)).

(** The colour of the pixel of index [k]. *)
Definition colourAt (r : Renderer) (camera : Camera) (k : nat) : Z :=
  pixelColour r camera (Z.of_nat k / GetSizeX (colorBuffer r))
              (Z.of_nat k mod GetSizeX (colorBuffer r)).

(** A write of the pass: inside the frame, with the colour of its
    pixel. *)
Definition framed (r : Renderer) (camera : Camera) (e : Worker.event) : Prop :=
  match e with
  | Worker.Pixel px py c =>
      0 <= px < GetSizeX (colorBuffer r) /\ 0 <= py /\
      c = pixelColour r camera py px
  | _ => True
  end.

(** The events of a worker for pixel [(j, i)], the earliest first:
    the sampling, then the write. *)
Definition samplingEvents (r : Renderer) (i j : Z) : list Worker.event :=
  [Worker.Sampled i j; Worker.Written 0; Worker.Sampled i j; Worker.Written 1]
  ++ (if bVariableSamplesPerPixel r then [Worker.Read 0; Worker.Read i] else [])
  ++ [Worker.Read 0; Worker.Read 1].

Definition pixelEvents (r : Renderer) (camera : Camera) (i j : Z)
  : list Worker.event :=
  samplingEvents r i j
  ++ [Worker.Locked; Worker.Pixel j i (pixelColour r camera i j); Worker.Unlocked].

Definition tileEvents (r : Renderer) (camera : Camera) (b : RenderBounds)
  : list Worker.event :=
  concat (map (fun i => concat (map (fun j => pixelEvents r camera i j)
                                    (seqZ (minX b) (maxX b - minX b))))
              (seqZ (minY b) (maxY b - minY b))).

(** The events of the tiles [ids], one tile after the other. *)
Definition passEvents (r : Renderer) (camera : Camera) (ids : list Z)
  : list Worker.event :=
  concat (map (fun tileID => tileEvents r camera (tileBounds r tileID)) ids).

(** When the strict run has a result: for a pixel of row [i], when the
    accumulator has room for the two samples and, with adaptive
    sampling enabled, [i] is one of its indices; for a tile, when this
    holds of all its pixels; for a pass, when [tilesNum] is an [int]
    and the allocator grants [numbers] and, for each tile, the
    accumulator. *)
Definition pixelDefined (r : Renderer) (i : Z) : bool :=
  (2 <=? samplesPerPixel r) &&
  (negb (bVariableSamplesPerPixel r) || Strict.inside (samplesPerPixel r) i).

Definition tileDefined (r : Renderer) (b : RenderBounds) : bool :=
  forallb (fun i => forallb (fun _ => pixelDefined r i)
                            (seqZ (minX b) (maxX b - minX b)))
          (seqZ (minY b) (maxY b - minY b)).

Definition passDefined (capacity : Z) (r : Renderer) : bool :=
  (tilesNum r <=? Strict.INT_MAX) && (tilesNum r <=? capacity) &&
  forallb (fun tileID => (samplesPerPixel r <=? capacity) &&
                         tileDefined r (tileBounds r tileID))
          (seqZ 0 (tilesNum r)).
End WithScene.
End Closed.

(* ================================================================== *)
(** ** Workers side by side *)

(** The threads of the parallel loop, each with the events it still has
    to do, the owner of [colorBufferMutex] and the framebuffer they
    share.  A step is one event of one thread; the lock is taken only
    when it is free. *)
Module Pool.
Import YAM YAR Worker.

Record t : Type :=
  mk { holder : option nat; todo : list (list event); buffer : Buffer }.

(** What an event does to the framebuffer. *)
Definition perform (e : event) (b : Buffer) : Buffer :=
  match e with
  | Pixel px py c => SetPix px py c b
  | _ => b
  end.

Definition performAll (l : list event) (b : Buffer) : Buffer :=
  fold_left (fun b e => perform e b) l b.

Inductive step (p : t) (n : nat) : event -> t -> Prop :=
| step_lock rest :
    todo p !! n = Some (Locked :: rest) ->
    holder p = None ->
    step p n Locked (mk (Some n) (<[n := rest]> (todo p)) (buffer p))
| step_unlock rest :
    todo p !! n = Some (Unlocked :: rest) ->
    step p n Unlocked (mk None (<[n := rest]> (todo p)) (buffer p))
| step_other e rest :
    todo p !! n = Some (e :: rest) ->
    e <> Locked -> e <> Unlocked ->
    step p n e (mk (holder p) (<[n := rest]> (todo p)) (perform e (buffer p))).

Inductive reachable (p0 : t) : t -> Prop :=
| reach_start : reachable p0 p0
| reach_step p n e p' : reachable p0 p -> step p n e p' -> reachable p0 p'.

(** Every thread has done all its events. *)
Definition finished (p : t) : Prop := Forall (fun prog => prog = []) (todo p).

Definition isPixel (e : event) : bool :=
  match e with Pixel _ _ _ => true | _ => false end.

(** The events of the sampling of a pixel: the calls of [SamplePixel]
    and the uses of the accumulator. *)
Definition isSampling (e : event) : bool :=
  match e with Sampled _ _ | Read _ | Written _ => true | _ => false end.

(** A thread is writing when its next event is a write of the
    framebuffer. *)
Definition writing (p : t) (n : nat) : Prop :=
  exists e rest, todo p !! n = Some (e :: rest) /\ isPixel e = true.

(** The events of a thread respect the lock: locked and unlocked in
    turn, the framebuffer written only inside, the samples taken and the
    accumulator used only outside.  [inside] tells whether the thread
    owns the lock. *)
Fixpoint wellLocked (inside : bool) (prog : list event) : bool :=
  match prog with
  | [] => negb inside
  | Locked :: prog' => negb inside && wellLocked true prog'
  | Unlocked :: prog' => inside && wellLocked false prog'
  | Pixel _ _ _ :: prog' => inside && wellLocked inside prog'
  | (Sampled _ _ | Read _ | Written _) :: prog' =>
      negb inside && wellLocked inside prog'
  end.

(** Every thread respects the lock, given which of them owns it. *)
Definition respectful (p : t) : Prop :=
  forall n prog,
    todo p !! n = Some prog ->
    wellLocked (bool_decide (holder p = Some n)) prog = true.

(** The owner of the lock is one of the threads. *)
Definition owned (p : t) : Prop :=
  forall n, holder p = Some n -> (n < length (todo p))%nat.

Section WithScene.
Context `{Defines} `{Scene}.

(** The events of one call of [RenderWorker], the earliest first. *)
Definition workerEvents (fuel : nat) (heap : Z -> Vector3) (r : Renderer)
           (camera : Camera) (tileID : Z) : list event :=
  match RenderWorker fuel heap r camera (tileBounds r tileID) (colorBuffer r) with
  | Some (w, _) => rev (trace w)
  | None => []
  end.

(** A render pass in which thread [n] runs the tiles [nth n tilesOf]
    one after the other, on the framebuffer [Render] has filled. *)
Definition start (fuel : nat) (heap : Z -> Vector3) (r : Renderer)
           (camera : Camera) (tilesOf : list (list Z)) : t :=
  mk None
     (map (fun ids => concat (map (workerEvents fuel heap r camera) ids)) tilesOf)
     (FillColor 0xff000000 (colorBuffer r)).
End WithScene.
End Pool.

(* ================================================================== *)
(** ** A small scene to run the renderer on *)

Module Demo.
Import YAM YAR.

(** Thresholds of about [1.5e-8] and [1e-6]. *)
Definition defines : Defines :=
  {| SmallNumber := fdiv (of_Z 1) (of_Z (2 ^ 26));
     SmallFloat := fdiv (of_Z 1) (of_Z (2 ^ 20)) |}.

(** The integer part of a float, towards zero. *)
Definition truncate (f : flt) : Z :=
  match f with
  | S754_finite s m e =>
      let a := if 0 <=? e then Z.pos m * 2 ^ e else Z.pos m / 2 ^ (- e) in
      if s then - a else a
  | _ => 0
  end.

Definition channel (f : flt) : Z :=
  Z.max 0 (Z.min 255 (truncate (fmul f (of_Z 255)))).

(** Rays are the pixel they go through; colours are packed
    [0xAARRGGBB] with full alpha. *)
Definition scene : Scene :=
  {| Ray := Z * Z;
     Camera := unit;
     Color := Z;
     GetRay := fun _ px py => (px, py);
     ToVector := fun c =>
       mkVector3 (fdiv (of_Z (Z.land (Z.shiftr c 16) 255)) (of_Z 255))
                 (fdiv (of_Z (Z.land (Z.shiftr c 8) 255)) (of_Z 255))
                 (fdiv (of_Z (Z.land c 255)) (of_Z 255));
     FromVector := fun v =>
       0xff000000 + channel (x v) * 65536 + channel (y v) * 256 + channel (z v);
     hex := fun c => c |}.

(** An object every ray hits, at distance [d], with normal [n]. *)
Definition hit (d : flt) (n : Vector3) (c : Z) : @RenderHitInfo scene :=
  @mkRenderHitInfo scene d n (@mkMaterial scene c).

Definition wall (d : flt) (n : Vector3) (c : Z) : @Renderable scene :=
  @mkRenderable scene (fun _ => Some (hit d n c)).

Definition towardsLight : Vector3 :=
  mkVector3 (of_Z 1) (of_Z 1) (fneg (of_Z 1)).

Definition white : Z := 0xffffffff.

(** A renderer without objects. *)
Definition empty (sx sy : Z) : @Renderer scene := @Renderer_new scene sx sy.

(** A renderer with a single white wall at distance 1. *)
Definition walled (sx sy : Z) : @Renderer scene :=
  @AddRenderable scene (wall (of_Z 1) towardsLight white) (empty sx sy).

(** A renderer whose only object reports its hit at the largest
    float. *)
Definition farWalled (sx sy : Z) : @Renderer scene :=
  @AddRenderable scene (wall FLT_MAX towardsLight white) (empty sx sy).

Definition camera : @Camera scene := tt.

Definition noHeap : Z -> Vector3 := fun _ => Vector3_0.
End Demo.

(* ================================================================== *)
(** ** Properties: comparison of floats, integers, loops *)

Section Floats.
Import YAM.

Lemma compare_cont_Lt_trans p q r :
  Pos.compare_cont Eq p q = Lt -> Pos.compare_cont Eq q r = Lt ->
  Pos.compare_cont Eq p r = Lt.
Proof.
  change (Pos.compare_cont Eq) with Pos.compare.
  rewrite !Pos.compare_lt_iff. lia.
Qed.

Lemma compare_cont_Gt_trans p q r :
  Pos.compare_cont Eq p q = Gt -> Pos.compare_cont Eq q r = Gt ->
  Pos.compare_cont Eq p r = Gt.
Proof.
  change (Pos.compare_cont Eq) with Pos.compare.
  rewrite !Pos.compare_gt_iff. lia.
Qed.

(** [<] on binary32 is transitive, whatever the operands: a NaN is
    below nothing and nothing is below it. *)
Lemma fltb_trans (a b c : flt) :
  fltb a b = true -> fltb b c = true -> fltb a c = true.
Proof.
  unfold fltb, SFltb.
  destruct a as [sa|sa| |sa ma ea], b as [sb|sb| |sb mb eb], c as [sc|sc| |sc mc ec];
    cbn -[Pos.compare_cont]; try discriminate; try reflexivity;
    repeat match goal with s : bool |- _ => destruct s end;
    cbn -[Pos.compare_cont]; try discriminate; try reflexivity.
  all: destruct (Z.compare_spec ea eb), (Z.compare_spec eb ec), (Z.compare_spec ea ec);
    try discriminate; try reflexivity; try lia; subst.
  all: destruct (Pos.compare_cont Eq ma mb) eqn:E1, (Pos.compare_cont Eq mb mc) eqn:E2;
    cbn; try discriminate; intros _ _.
  all: try (rewrite (compare_cont_Lt_trans _ _ _ E1 E2); reflexivity).
  all: try (rewrite (compare_cont_Gt_trans _ _ _ E1 E2); reflexivity).
Qed.

Lemma fltb_irrefl (a : flt) : fltb a a = false.
Proof.
  unfold fltb, SFltb.
  destruct a as [[]|[]| |[] m e]; cbn -[Pos.compare_cont]; try reflexivity.
  all: rewrite Z.compare_refl; change (Pos.compare_cont Eq) with Pos.compare;
    rewrite Pos.compare_refl; reflexivity.
Qed.

(** What is below [c] is below everything that is not below [c], a NaN
    apart. *)
Lemma fltb_below_rest (a b c : flt) :
  fltb a c = true -> fltb b c = false -> fltb a b = true \/ b = S754_nan.
Proof.
  unfold fltb, SFltb.
  destruct a as [sa|sa| |sa ma ea], b as [sb|sb| |sb mb eb], c as [sc|sc| |sc mc ec];
    cbn -[Pos.compare_cont]; try discriminate; auto;
    repeat match goal with s : bool |- _ => destruct s end;
    cbn -[Pos.compare_cont]; try discriminate; auto.
  all: destruct (Z.compare_spec ea eb), (Z.compare_spec eb ec), (Z.compare_spec ea ec);
    try discriminate; auto; try lia; subst.
  all: change (Pos.compare_cont Eq) with Pos.compare;
    destruct (Pos.compare_spec ma mb), (Pos.compare_spec mb mc), (Pos.compare_spec ma mc);
    cbn; try discriminate; auto; lia.
Qed.
End Floats.

Lemma u32_small v : 0 <= v < 2 ^ 32 -> u32 v = v.
Proof. intros Hv. unfold u32. apply Z.mod_small, Hv. Qed.

Lemma seqZ_0_2 : seqZ 0 2 = [0; 1].
Proof. reflexivity. Qed.

Section Loops.
Context {S B X E : Type}.

(** A loop over a worker and a framebuffer whose body always succeeds,
    changes the framebuffer by [g] and adds the events [ev]. *)
Lemma forEach_paired (tr : S -> list E) (body : X -> S * B -> option (S * B))
      (g : X -> B -> B) (ev : X -> list E) :
  (forall v s b, exists s',
        body v (s, b) = Some (s', g v b) /\ tr s' = rev (ev v) ++ tr s) ->
  forall l s b, exists s',
    forEach body l (s, b) = Some (s', fold_left (fun b v => g v b) l b) /\
    tr s' = rev (concat (map ev l)) ++ tr s.
Proof.
  intros Hbody l. induction l as [|v l IH]; intros s b; cbn.
  - eauto.
  - destruct (Hbody v s b) as (s1 & -> & T1).
    destruct (IH s1 (g v b)) as (s2 & -> & T2).
    exists s2. split; [reflexivity|].
    rewrite T2, T1, rev_app_distr, app_assoc. reflexivity.
Qed.

Lemma forEach_total (body : X -> B -> option B) (g : X -> B -> B) :
  (forall v b, body v b = Some (g v b)) ->
  forall l b, forEach body l b = Some (fold_left (fun b v => g v b) l b).
Proof.
  intros Hbody l. induction l as [|v l IH]; intros b; cbn; [done|].
  rewrite Hbody. apply IH.
Qed.

Lemma fold_left_invariant (P : B -> Prop) (g : B -> X -> B) :
  (forall v b, P b -> P (g b v)) ->
  forall l b, P b -> P (fold_left g l b).
Proof.
  intros Hg l. induction l as [|v l IH]; intros b Hb; cbn; auto.
Qed.
End Loops.

(* ================================================================== *)
(** ** Properties: one pixel *)

Section PixelLoop.
Import YAM YAR.
Context {defs : Defines} {scn : Scene}.
Implicit Types (r : Renderer) (camera : Camera) (w : Worker.t).

(** Entered with the counter at 2 and the bound at 2, the loop of
    lines 78-81 ends at once. *)
Lemma extraSamples_2_2 fuel r camera i j :
  extraSamples fuel r camera i j 2 2 = mret 2.
Proof. destruct fuel; reflexivity. Qed.

Lemma initialPhase_run r camera i j w :
  exists more w',
    initialPhase r camera i j w = Some ((2, more), w') /\
    Worker.samples w' 0 = SamplePixel r camera i j /\
    Worker.samples w' 1 = SamplePixel r camera i j /\
    [Worker.Read 1; Worker.Read 0] ++ Worker.trace w' =
      rev (Closed.samplingEvents r i j) ++ Worker.trace w.
Proof.
  unfold initialPhase, needsMoreSamples, initialSamples, Closed.samplingEvents.
  rewrite seqZ_0_2.
  destruct (bVariableSamplesPerPixel r); do 2 eexists;
    (split; [reflexivity|]); cbn; auto.
Qed.

(** What the test of line 77 compares: the first sample with the cell
    of the accumulator at the row of the pixel, which holds a sample in
    rows 0 and 1, the zero of the clearing in the other rows below
    [samplesPerPixel], and whatever lies behind the vector from there
    on. *)
Lemma initialPhase_outcome r camera i j w :
  let v := SamplePixel r camera i j in
  let atRow :=
    if i =? 1 then v
    else if i =? 0 then v
    else if (0 <=? i) && (i <? samplesPerPixel r) then Vector3_1 (of_Z 0)
    else Worker.samples w i in
  exists w',
    initialPhase r camera i j w =
      Some ((2, if bVariableSamplesPerPixel r
                then fltb SmallFloat (Length (sub v atRow)) else true), w').
Proof.
  unfold initialPhase, needsMoreSamples, initialSamples.
  rewrite seqZ_0_2.
  destruct (bVariableSamplesPerPixel r); eexists; reflexivity.
Qed.


(** Whatever the fuel, the flag, the row and the accumulator: two
    samples, and their sum. *)
Lemma samplePixelLoop_run fuel r camera i j w :
  exists w',
    samplePixelLoop fuel r camera i j w =
      Some ((2, add (add (Vector3_1 (of_Z 0)) (SamplePixel r camera i j))
                    (SamplePixel r camera i j)), w') /\
    Worker.trace w' = rev (Closed.samplingEvents r i j) ++ Worker.trace w.
Proof.
  destruct (initialPhase_run r camera i j w) as (more & w1 & E & C0 & C1 & T).
  unfold samplePixelLoop.
  unfold mbind at 1. unfold Worker.M_bind at 1. rewrite E.
  assert (E2 : (if more then extraSamples fuel r camera i j 2 2 else mret 2) = mret 2).
  { destruct more; [apply extraSamples_2_2 | reflexivity]. }
  rewrite E2. unfold sumSamples.
  cbv [mbind mret Worker.M_bind Worker.M_ret]. rewrite seqZ_0_2.
  cbv [mbind mret Worker.M_bind Worker.M_ret Worker.load Worker.foldM Worker.emit].
  cbn [Worker.samples Worker.trace]. rewrite C0, C1.
  eexists; split; [reflexivity|]. cbn [Worker.trace]. exact T.
Qed.

Lemma renderPixel_run fuel r camera i j w buf :
  exists w',
    renderPixel fuel r camera i j (w, buf) =
      Some (w', Closed.paintPixel r camera i j buf) /\
    Worker.trace w' = rev (Closed.pixelEvents r camera i j) ++ Worker.trace w.
Proof.
  destruct (samplePixelLoop_run fuel r camera i j w) as (w' & E & T).
  unfold renderPixel. cbn [fst snd]. rewrite E.
  eexists; split; [reflexivity|].
  unfold Closed.pixelEvents. rewrite rev_app_distr. cbn. rewrite T. reflexivity.
Qed.
End PixelLoop.

(* ================================================================== *)
(** ** Properties: a tile and the whole pass *)

Section RenderRuns.
Import YAM YAR.
Context {defs : Defines} {scn : Scene}.
Implicit Types (r : Renderer) (camera : Camera).

Lemma RenderWorker_run fuel heap r camera bounds buf :
  exists w,
    RenderWorker fuel heap r camera bounds buf =
      Some (w, Closed.paintTile r camera bounds buf) /\
    Worker.trace w = rev (Closed.tileEvents r camera bounds).
Proof.
  unfold RenderWorker, Closed.paintTile, Closed.tileEvents.
  edestruct (forEach_paired Worker.trace
               (fun i => forEach (fun j => renderPixel fuel r camera i j)
                                 (seqZ (minX bounds) (maxX bounds - minX bounds)))
               (fun i buf => fold_left (fun buf j => Closed.paintPixel r camera i j buf)
                                       (seqZ (minX bounds) (maxX bounds - minX bounds)) buf)
               (fun i => concat (map (fun j => Closed.pixelEvents r camera i j)
                                     (seqZ (minX bounds) (maxX bounds - minX bounds)))))
    as (w & E & T).
  - intros i s b.
    apply (forEach_paired Worker.trace (fun j => renderPixel fuel r camera i j)
                          (fun j buf => Closed.paintPixel r camera i j buf)
                          (fun j => Closed.pixelEvents r camera i j)).
    intros j s0 b0. apply renderPixel_run.
  - exists w. split; [exact E|]. rewrite T. cbn. apply app_nil_r.
Qed.

Lemma Render_run fuel heap camera r :
  Render fuel heap camera r = Some (withBuffer (Closed.paint r camera) r).
Proof.
  unfold Render, Closed.paint.
  rewrite (forEach_total _ (fun tileID buf => Closed.paintTile r camera (tileBounds r tileID) buf));
    [reflexivity|].
  intros tileID b.
  destruct (RenderWorker_run fuel heap r camera (tileBounds r tileID) b) as (w & -> & _).
  reflexivity.
Qed.

Lemma paint_invariant (P : Buffer -> Prop) r camera :
  (forall i j b, P b -> P (Closed.paintPixel r camera i j b)) ->
  P (FillColor Spec.background (colorBuffer r)) ->
  P (Closed.paint r camera).
Proof.
  intros Hpix Hfill. unfold Closed.paint.
  apply fold_left_invariant; [|exact Hfill].
  intros tileID b Hb. unfold Closed.paintTile.
  apply fold_left_invariant; [|exact Hb].
  intros i b1 Hb1. apply fold_left_invariant; [|exact Hb1].
  intros j b2 Hb2. apply Hpix, Hb2.
Qed.

Lemma paint_shape r camera : Spec.sameShape (Closed.paint r camera) (colorBuffer r).
Proof.
  apply (paint_invariant (fun b => Spec.sameShape b (colorBuffer r))).
  - intros i j b (Hx & Hy & Hl). unfold Spec.sameShape, Closed.paintPixel, SetPix; cbn.
    rewrite length_insert. auto.
  - unfold Spec.sameShape, FillColor; cbn. rewrite length_replicate. auto.
Qed.

Lemma FillColor_shape c (a b : Buffer) :
  Spec.sameShape a b -> FillColor c a = FillColor c b.
Proof. intros (Hx & Hy & Hl). unfold FillColor. congruence. Qed.

(** Painting over a painted framebuffer paints the same picture. *)
Lemma paint_again r camera :
  Closed.paint (withBuffer (Closed.paint r camera) r) camera = Closed.paint r camera.
Proof.
  destruct (paint_shape r camera) as (Hx & Hy & Hl).
  unfold Closed.paint at 1. unfold tileBounds, tilesNum, GetSizeX, GetSizeY.
  cbn [colorBuffer withBuffer tilesPerRow].
  rewrite Hx, Hy, (FillColor_shape _ _ (colorBuffer r) (paint_shape r camera)).
  reflexivity.
Qed.
End RenderRuns.

(* ================================================================== *)
(** ** Properties: the tiles *)

Section Tiling.
Import YAM YAR.
Context {scn : Scene}.
Variable r : Renderer.
Let T := tilesPerRow r.
Let W := GetSizeX (colorBuffer r).
Let Hh := GetSizeY (colorBuffer r).
Hypothesis T_pos : 0 < T.
Hypothesis W_mult : W mod T = 0.
Hypothesis H_mult : Hh mod T = 0.
Hypothesis W_range : 0 <= W < 2 ^ 32.
Hypothesis H_range : 0 <= Hh < 2 ^ 32.
Hypothesis tiles_fit : T * T < 2 ^ 32.
Hypothesis W_fit : (T - 1) * W < 2 ^ 32.
Hypothesis H_fit : (T - 1) * Hh < 2 ^ 32.

Lemma tilesNum_exact : tilesNum r = T * T.
Proof. unfold tilesNum. fold T. apply u32_small. nia. Qed.

(** Without wrap-around, strip [k] of a side [S] starts at [k] times
    the width of a strip. *)
Lemma strip_exact k S :
  0 <= k < T -> 0 <= S < 2 ^ 32 -> S mod T = 0 -> (T - 1) * S < 2 ^ 32 ->
  u32 (k * S) / T = k * (S / T) /\
  u32 (k * (S / T) + S / T) = k * (S / T) + S / T.
Proof.
  intros Hk HS Hm Hfit.
  assert (HS' : S = T * (S / T)) by (apply Z.div_exact; lia).
  assert (0 <= S / T) by (apply Z.div_pos; lia).
  split.
  - rewrite u32_small by nia.
    rewrite HS' at 1. replace (k * (T * (S / T))) with (k * (S / T) * T) by ring.
    apply Z.div_mul. lia.
  - apply u32_small. nia.
Qed.

Lemma tileBounds_exact t :
  0 <= t < T * T ->
  tileBounds r t =
    mkRenderBounds (t mod T * (W / T)) (t / T * (Hh / T))
                   (t mod T * (W / T) + W / T) (t / T * (Hh / T) + Hh / T).
Proof.
  intros Ht. unfold tileBounds. fold T W Hh. cbv zeta.
  assert (HY : 0 <= t / T < T).
  { split; [apply Z.div_pos; lia | apply Z.div_lt_upper_bound; lia]. }
  assert (Hmod : 0 <= t mod T < T) by (apply Z.mod_pos_bound; lia).
  assert (Hdm : t = T * (t / T) + t mod T) by (apply Z.div_mod; lia).
  assert (EX : u32 (t - u32 (t / T * T)) = t mod T).
  { rewrite (u32_small (t / T * T)) by nia. rewrite u32_small by nia. lia. }
  rewrite EX.
  destruct (strip_exact (t mod T) W Hmod W_range W_mult W_fit) as (-> & ->).
  destruct (strip_exact (t / T) Hh HY H_range H_mult H_fit) as (-> & ->).
  reflexivity.
Qed.

(** The same bounds written as the source computes them. *)
Lemma tileBounds_formulas t :
  0 <= t < T * T ->
  let b := tileBounds r t in
  minX b = t mod T * W / T /\ maxX b = minX b + W / T /\
  minY b = t / T * Hh / T /\ maxY b = minY b + Hh / T.
Proof.
  intros Ht. rewrite (tileBounds_exact t Ht). cbn.
  assert (EW : t mod T * W / T = t mod T * (W / T)).
  { apply Z.divide_div_mul_exact; [lia|]. apply Z.mod_divide; [lia|exact W_mult]. }
  assert (EH : t / T * Hh / T = t / T * (Hh / T)).
  { apply Z.divide_div_mul_exact; [lia|]. apply Z.mod_divide; [lia|exact H_mult]. }
  rewrite EW, EH. auto.
Qed.

Lemma strip_unique k1 k2 w px :
  k1 * w <= px < k1 * w + w -> k2 * w <= px < k2 * w + w -> k1 = k2.
Proof. intros H1 H2. nia. Qed.

Lemma tiles_partition : Spec.partitions r.
Proof.
  unfold Spec.partitions. rewrite tilesNum_exact. fold T W Hh. split.
  - intros t1 t2 px py Ht1 Ht2.
    rewrite !tileBounds_exact by assumption.
    unfold Spec.inBounds; cbn. intros (HX1 & HY1) (HX2 & HY2).
    pose proof (strip_unique _ _ _ _ HX1 HX2) as EX.
    pose proof (strip_unique _ _ _ _ HY1 HY2) as EY.
    rewrite (Z.div_mod t1 T), (Z.div_mod t2 T) by lia. congruence.
  - intros px py Hpx Hpy.
    assert (HW : W = T * (W / T)) by (apply Z.div_exact; lia).
    assert (HH : Hh = T * (Hh / T)) by (apply Z.div_exact; lia).
    assert (0 < W / T) by nia. assert (0 < Hh / T) by nia.
    assert (Hqx : 0 <= px / (W / T) < T).
    { split; [apply Z.div_pos; lia | apply Z.div_lt_upper_bound; lia]. }
    assert (Hqy : 0 <= py / (Hh / T) < T).
    { split; [apply Z.div_pos; lia | apply Z.div_lt_upper_bound; lia]. }
    exists (py / (Hh / T) * T + px / (W / T)).
    assert (Ht : 0 <= py / (Hh / T) * T + px / (W / T) < T * T) by nia.
    split; [exact Ht|]. rewrite tileBounds_exact by exact Ht.
    assert (Em : (py / (Hh / T) * T + px / (W / T)) mod T = px / (W / T)).
    { rewrite Z.add_comm, Z.mod_add by lia. apply Z.mod_small; lia. }
    assert (Ed : (py / (Hh / T) * T + px / (W / T)) / T = py / (Hh / T)).
    { rewrite Z.add_comm, Z.div_add by lia. rewrite Z.div_small; lia. }
    rewrite Em, Ed. unfold Spec.inBounds; cbn.
    pose proof (Z.div_mod px (W / T)). pose proof (Z.mod_pos_bound px (W / T)).
    pose proof (Z.div_mod py (Hh / T)). pose proof (Z.mod_pos_bound py (Hh / T)).
    nia.
Qed.
End Tiling.

(* ================================================================== *)
(** ** Properties: the closest hit *)

Section Closest.
Import YAM YAR.
Context {defs : Defines} {scn : Scene}.

(** The hits a list of objects reports for a ray. *)
Let seen (ray : Ray) (objs : list Renderable) (h : RenderHitInfo) : Prop :=
  exists obj, obj ∈ objs /\ Trace obj ray = Some h.

(** After the loop over the objects nothing reported is nearer than
    the hit kept; a hit kept was reported below the largest float, and
    what the objects before its own reported is farther (or at a NaN). *)
Lemma closest_invariant ray objs :
  let closestHit := fold_left (closestStep ray) objs None in
  (forall h', seen ray objs h' ->
              fltb (distance h') (closestDistance closestHit) = false) /\
  (forall h, closestHit = Some h ->
             fltb (distance h) FLT_MAX = true /\
             exists before obj after,
               objs = before ++ obj :: after /\
               Trace obj ray = Some h /\
               forall h', seen ray before h' ->
                          fltb (distance h) (distance h') = true \/
                          distance h' = S754_nan).
Proof.
  induction objs as [|obj objs IH] using rev_ind; cbn zeta.
  - split; [|discriminate]. intros h' (obj & Hin & _). inversion Hin.
  - rewrite fold_left_app. cbn [fold_left].
    set (acc := fold_left (closestStep ray) objs None) in *.
    cbn zeta in IH. destruct IH as (Hmin & Hkept).
    assert (Hbelow : forall h, fltb (distance h) (closestDistance acc) = true ->
                               fltb (distance h) FLT_MAX = true).
    { intros h Hlt. destruct acc as [h0|]; [|exact Hlt].
      destruct (Hkept h0 eq_refl) as (H0 & _). exact (fltb_trans _ _ _ Hlt H0). }
    assert (Hsplit : forall h', seen ray (objs ++ [obj]) h' ->
                                seen ray objs h' \/ Trace obj ray = Some h').
    { intros h' (o & Hin & Ho). apply elem_of_app in Hin as [Hin|Hin].
      - left. exists o. auto.
      - apply list_elem_of_singleton in Hin. subst o. auto. }
    assert (Hstay : forall h, acc = Some h ->
              fltb (distance h) FLT_MAX = true /\
              exists before o after,
                objs ++ [obj] = before ++ o :: after /\
                Trace o ray = Some h /\
                forall h', seen ray before h' ->
                           fltb (distance h) (distance h') = true \/
                           distance h' = S754_nan).
    { intros h Hh. destruct (Hkept h Hh) as (Hb & before & o & after & -> & Ho & Hfar).
      split; [exact Hb|]. exists before, o, (after ++ [obj]).
      rewrite <- app_assoc. auto. }
    unfold closestStep. destruct (Trace obj ray) as [hitInfo|] eqn:Etr.
    + destruct (fltb (distance hitInfo) (closestDistance acc)) eqn:Elt.
      * split.
        -- intros h' Hseen. cbn [closestDistance].
           destruct (Hsplit h' Hseen) as [Hold|[= <-]]; [|apply fltb_irrefl].
           destruct (fltb (distance h') (distance hitInfo)) eqn:E'; [|reflexivity].
           rewrite <- (Hmin h' Hold). symmetry. exact (fltb_trans _ _ _ E' Elt).
        -- intros h [= <-]. split; [exact (Hbelow _ Elt)|].
           exists objs, obj, []. repeat split; [exact Etr|].
           intros h' Hold. exact (fltb_below_rest _ _ _ Elt (Hmin h' Hold)).
      * split; [|exact Hstay].
        intros h' Hseen. destruct (Hsplit h' Hseen) as [Hold|[= <-]];
          [exact (Hmin h' Hold)|exact Elt].
    + split; [|exact Hstay].
      intros h' Hseen. destruct (Hsplit h' Hseen) as [Hold|Hnew];
        [exact (Hmin h' Hold)|discriminate Hnew].
Qed.

Lemma closest_none ray objs :
  (forall obj, obj ∈ objs -> Trace obj ray = None) ->
  fold_left (closestStep ray) objs None = None.
Proof.
  induction objs as [|obj objs IH] using rev_ind; intros Hnone; [reflexivity|].
  rewrite fold_left_app. cbn. rewrite IH.
  - unfold closestStep. rewrite Hnone; [reflexivity|].
    apply elem_of_app; right. apply list_elem_of_singleton. reflexivity.
  - intros o Ho. apply Hnone, elem_of_app. left. exact Ho.
Qed.

Lemma SamplePixel_no_hit r camera y x :
  (forall obj, obj ∈ renderables r -> Trace obj (GetRay camera x y) = None) ->
  SamplePixel r camera y x = Vector3_1 (of_Z 0).
Proof.
  intros Hnone. unfold SamplePixel. cbv zeta.
  rewrite closest_none by exact Hnone. reflexivity.
Qed.
End Closest.

(* ================================================================== *)
(** ** Properties: the lock *)

Section Locking.
Import YAM YAR Worker Pool.

Lemma wellLocked_app a b :
  forall inside,
    wellLocked inside a = true ->
    wellLocked inside (a ++ b) = wellLocked false b.
Proof.
  induction a as [|e a IH]; intros inside; cbn.
  - destruct inside; [discriminate|reflexivity].
  - destruct e; intros Ha; try (apply andb_prop in Ha as [-> Ha]; cbn); auto.
Qed.

Lemma wellLocked_concat (ls : list (list event)) :
  Forall (fun l => wellLocked false l = true) ls ->
  wellLocked false (concat ls) = true.
Proof.
  induction 1 as [|l ls Hl _ IH]; cbn; [reflexivity|].
  rewrite (wellLocked_app _ _ _ Hl). exact IH.
Qed.

Lemma step_respectful p n e p' :
  respectful p -> step p n e p' -> respectful p'.
Proof.
  intros Inv Hstep n' prog' Hlook.
  destruct Hstep as [rest Hn Hfree | rest Hn | e rest Hn HnL HnU];
    cbn [holder todo buffer] in *;
    pose proof (Inv n _ Hn) as Hown;
    apply list_lookup_insert_Some in Hlook as [(<- & <- & _) | (Hne & Hlook)];
    try pose proof (Inv n' _ Hlook) as Hother.
  - rewrite Hfree in Hown. cbn in Hown. rewrite bool_decide_eq_true_2 by reflexivity.
    exact Hown.
  - rewrite Hfree in Hother. rewrite bool_decide_eq_false_2 by congruence.
    exact Hother.
  - cbn in Hown. apply andb_prop in Hown as [_ Hown]. exact Hown.
  - cbn in Hown. apply andb_prop in Hown as [Hin _].
    apply bool_decide_eq_true_1 in Hin. rewrite Hin in Hother.
    rewrite bool_decide_eq_false_2 in Hother by congruence. exact Hother.
  - destruct e; cbn in Hown; try congruence;
      try (apply andb_prop in Hown as [_ Hown]); exact Hown.
  - exact Hother.
Qed.

Lemma reachable_respectful p0 p :
  respectful p0 -> reachable p0 p -> respectful p.
Proof.
  intros Inv0. induction 1 as [|p n e p' _ IH Hstep]; [exact Inv0|].
  exact (step_respectful _ _ _ _ IH Hstep).
Qed.

(** In a pool that respects the lock, the thread that writes the
    framebuffer next owns the lock and a thread whose next event belongs
    to the sampling does not. *)
Lemma respectful_next p n e rest :
  respectful p -> todo p !! n = Some (e :: rest) ->
  (isPixel e = true -> holder p = Some n) /\
  (isSampling e = true -> holder p <> Some n).
Proof.
  intros Inv Hn. pose proof (Inv n _ Hn) as Hown.
  destruct e; cbn in *; (split; [try discriminate|try discriminate]).
  1-3: intros _ Hh; rewrite bool_decide_eq_true_2 in Hown by exact Hh;
    discriminate.
  intros _. apply andb_prop in Hown as [Hin _].
  apply bool_decide_eq_true_1 in Hin. exact Hin.
Qed.

Lemma step_next p n e p' :
  step p n e p' -> exists rest, todo p !! n = Some (e :: rest).
Proof. destruct 1; eauto. Qed.

Section WithScene.
Context {defs : Defines} {scn : Scene}.
Implicit Types (r : Renderer) (camera : Camera).

Lemma pixelEvents_wellLocked r camera i j :
  wellLocked false (Closed.pixelEvents r camera i j) = true.
Proof.
  unfold Closed.pixelEvents, Closed.samplingEvents.
  destruct (bVariableSamplesPerPixel r); reflexivity.
Qed.

Lemma tileEvents_wellLocked r camera b :
  wellLocked false (Closed.tileEvents r camera b) = true.
Proof.
  unfold Closed.tileEvents. apply wellLocked_concat, Forall_map, Forall_forall.
  intros i _. cbn. apply wellLocked_concat, Forall_map, Forall_forall.
  intros j _. apply pixelEvents_wellLocked.
Qed.

Lemma workerEvents_run fuel heap r camera tileID :
  workerEvents fuel heap r camera tileID =
    Closed.tileEvents r camera (tileBounds r tileID).
Proof.
  unfold workerEvents.
  destruct (RenderWorker_run fuel heap r camera (tileBounds r tileID) (colorBuffer r))
    as (w & -> & ->).
  apply rev_involutive.
Qed.

Lemma start_respectful fuel heap r camera tilesOf :
  respectful (start fuel heap r camera tilesOf).
Proof.
  intros n prog Hn. cbn in *.
  apply list_lookup_fmap_Some in Hn as (ids & -> & _).
  apply wellLocked_concat, Forall_map, Forall_forall.
  intros tileID _. cbn. rewrite workerEvents_run. apply tileEvents_wellLocked.
Qed.
End WithScene.
End Locking.

(* ================================================================== *)
(** ** Properties: the order of the writes does not matter *)

Section Lists.
Context {A B : Type}.

Lemma fold_left_concat (f : B -> A -> B) (ls : list (list A)) (b : B) :
  fold_left f (concat ls) b = fold_left (fun b l => fold_left f l b) ls b.
Proof.
  revert b. induction ls as [|l ls IH]; intros b; cbn; [reflexivity|].
  rewrite fold_left_app. apply IH.
Qed.

Lemma fold_left_concat_map {X} (f : B -> A -> B) (g : X -> list A) (l : list X) (b : B) :
  fold_left f (concat (map g l)) b = fold_left (fun b v => fold_left f (g v) b) l b.
Proof.
  revert b. induction l as [|v l IH]; intros b; cbn; [reflexivity|].
  rewrite fold_left_app. apply IH.
Qed.

Lemma fold_left_pointwise (f g : B -> A -> B) (l : list A) (b : B) :
  (forall b v, f b v = g b v) -> fold_left f l b = fold_left g l b.
Proof.
  intros Hfg. revert b. induction l as [|v l IH]; intros b; cbn; [reflexivity|].
  rewrite Hfg. apply IH.
Qed.

Lemma concat_map_concat (f : B -> list A) (ls : list (list B)) :
  concat (map (fun l => concat (map f l)) ls) = concat (map f (concat ls)).
Proof.
  induction ls as [|l ls IH]; cbn; [reflexivity|].
  rewrite map_app, concat_app, IH. reflexivity.
Qed.

Lemma concat_map_perm (f : B -> list A) (l1 l2 : list B) :
  l1 ≡ₚ l2 -> concat (map f l1) ≡ₚ concat (map f l2).
Proof.
  induction 1 as [|v l1 l2 _ IH|v1 v2 l|l1 l2 l3 _ IH1 _ IH2]; cbn.
  - reflexivity.
  - rewrite IH. reflexivity.
  - rewrite !app_assoc. apply Permutation_app_tail, Permutation_app_comm.
  - etransitivity; eassumption.
Qed.

Lemma existsb_perm (f : A -> bool) (l1 l2 : list A) :
  l1 ≡ₚ l2 -> existsb f l1 = existsb f l2.
Proof.
  induction 1 as [|v l1 l2 _ IH|v1 v2 l|l1 l2 l3 _ IH1 _ IH2]; cbn.
  - reflexivity.
  - rewrite IH. reflexivity.
  - destruct (f v1), (f v2); reflexivity.
  - congruence.
Qed.

(** Taking the first event of one thread off its list takes it off the
    events of all threads. *)
Lemma concat_insert_head (ls : list (list A)) (n : nat) (e : A) (rest : list A) :
  ls !! n = Some (e :: rest) ->
  concat ls ≡ₚ e :: concat (<[n := rest]> ls).
Proof.
  revert n. induction ls as [|l ls IH]; intros n Hn; [discriminate|].
  destruct n as [|n]; cbn in *.
  - injection Hn as ->. reflexivity.
  - rewrite (IH n Hn). symmetry. apply Permutation_middle.
Qed.
End Lists.

Section Schedules.
Import YAM YAR Worker Pool.
Context {defs : Defines} {scn : Scene}.
Implicit Types (r : Renderer) (camera : Camera) (b : Buffer).

Lemma perform_shape e b : Spec.sameShape (perform e b) b.
Proof.
  destruct e; cbn; unfold Spec.sameShape, SetPix; cbn;
    rewrite ?length_insert; auto.
Qed.

Lemma performAll_shape l b : Spec.sameShape (performAll l b) b.
Proof.
  unfold performAll. revert b. induction l as [|e l IH]; intros b; cbn.
  - unfold Spec.sameShape. auto.
  - destruct (IH (perform e b)) as (Hx & Hy & Hl).
    destruct (perform_shape e b) as (Hx' & Hy' & Hl').
    unfold Spec.sameShape. repeat split; congruence.
Qed.

Lemma perform_lookup r camera e b k :
  sizeX b = GetSizeX (colorBuffer r) ->
  Closed.framed r camera e ->
  data (perform e b) !! k =
    if Closed.writesAt (GetSizeX (colorBuffer r)) k e
    then (fun _ => Closed.colourAt r camera k) <$> data b !! k
    else data b !! k.
Proof.
  intros Hsize Hframed.
  destruct e as [y x|i|i| |px py c|]; cbn; try reflexivity.
  destruct Hframed as (Hpx & Hpy & ->).
  unfold SetPix; cbn. rewrite Hsize. fold (Closed.pixelIndex (GetSizeX (colorBuffer r)) px py).
  rewrite list_lookup_insert.
  destruct (Nat.eqb_spec (Closed.pixelIndex (GetSizeX (colorBuffer r)) px py) k) as [<-|Hne].
  - assert (Ek : Z.of_nat (Closed.pixelIndex (GetSizeX (colorBuffer r)) px py)
                 = py * GetSizeX (colorBuffer r) + px).
    { unfold Closed.pixelIndex. apply Z2Nat.id. nia. }
    assert (Ecol : Closed.colourAt r camera (Closed.pixelIndex (GetSizeX (colorBuffer r)) px py)
                   = Closed.pixelColour r camera py px).
    { unfold Closed.colourAt. rewrite Ek. f_equal.
      - rewrite Z.div_add_l by lia. rewrite Z.div_small by lia. lia.
      - rewrite Z.add_comm, Z.mod_add by lia. apply Z.mod_small. lia. }
    rewrite Ecol. case_decide as Hd.
    + destruct Hd as (_ & Hlt). apply lookup_lt_is_Some in Hlt as (c0 & ->). reflexivity.
    + rewrite lookup_ge_None_2; [reflexivity|].
      destruct (decide (Closed.pixelIndex (GetSizeX (colorBuffer r)) px py < length (data b))%nat);
        [tauto|lia].
  - case_decide as Hd; [destruct Hd; congruence|reflexivity].
Qed.

Lemma performAll_lookup r camera l :
  forall b k,
    sizeX b = GetSizeX (colorBuffer r) ->
    Forall (Closed.framed r camera) l ->
    data (performAll l b) !! k =
      if existsb (Closed.writesAt (GetSizeX (colorBuffer r)) k) l
      then (fun _ => Closed.colourAt r camera k) <$> data b !! k
      else data b !! k.
Proof.
  unfold performAll. induction l as [|e l IH]; intros b k Hsize Hall; cbn; [reflexivity|].
  apply Forall_cons in Hall as (He & Hall).
  rewrite IH; [|destruct (perform_shape e b) as (-> & _); exact Hsize|exact Hall].
  rewrite (perform_lookup r camera e b k Hsize He).
  destruct (Closed.writesAt _ k e), (existsb _ l); cbn; try reflexivity.
  destruct (data b !! k); reflexivity.
Qed.

(** Two orders of the same framed writes leave the same framebuffer. *)
Lemma performAll_perm r camera l1 l2 b :
  l1 ≡ₚ l2 ->
  Forall (Closed.framed r camera) l2 ->
  sizeX b = GetSizeX (colorBuffer r) ->
  performAll l1 b = performAll l2 b.
Proof.
  intros Hperm Hall2 Hsize.
  assert (Hall1 : Forall (Closed.framed r camera) l1) by (rewrite Hperm; exact Hall2).
  destruct (performAll_shape l1 b) as (Hx1 & Hy1 & _).
  destruct (performAll_shape l2 b) as (Hx2 & Hy2 & _).
  assert (Hdata : data (performAll l1 b) = data (performAll l2 b)).
  { apply list_eq. intros k.
    rewrite (performAll_lookup r camera l1 b k Hsize Hall1).
    rewrite (performAll_lookup r camera l2 b k Hsize Hall2).
    rewrite (existsb_perm _ _ _ Hperm). reflexivity. }
  destruct (performAll l1 b), (performAll l2 b); cbn in *. congruence.
Qed.
End Schedules.

(* ================================================================== *)
(** ** Properties: a pass of threads side by side *)

Section ParallelPass.
Import YAM YAR Worker Pool.
Context {defs : Defines} {scn : Scene}.
Implicit Types (r : Renderer) (camera : Camera) (b : Buffer).

Lemma u32_bounds v : 0 <= u32 v < 2 ^ 32.
Proof. unfold u32. apply Z.mod_pos_bound. lia. Qed.

Lemma u32_le v : 0 <= v -> u32 v <= v.
Proof. intros Hv. unfold u32. apply Z.mod_le; lia. Qed.

(** A tile [Render] hands out starts inside the frame and does not
    reach over its right edge, wrap-around or not. *)
Lemma tileBounds_in_frame r t :
  Spec.wellTyped r -> 0 <= t < tilesNum r ->
  0 <= minX (tileBounds r t) /\
  maxX (tileBounds r t) <= GetSizeX (colorBuffer r) /\
  0 <= minY (tileBounds r t).
Proof.
  intros (HW & HH & HT) Ht.
  pose proof (u32_bounds (tilesPerRow r * tilesPerRow r)) as Hnum.
  fold (tilesNum r) in Hnum.
  assert (HTpos : 0 < tilesPerRow r).
  { destruct (Z.eq_dec (tilesPerRow r) 0) as [E|]; [|lia].
    unfold tilesNum in Ht. rewrite E in Ht. change (u32 (0 * 0)) with 0 in Ht. lia. }
  unfold tileBounds. cbn [minX maxX minY].
  set (T := tilesPerRow r) in *. set (W := GetSizeX (colorBuffer r)) in *.
  assert (HY : 0 <= t / T) by (apply Z.div_pos; lia).
  assert (Hdm : t = T * (t / T) + t mod T) by (apply Z.div_mod; lia).
  assert (Hmod : 0 <= t mod T < T) by (apply Z.mod_pos_bound; lia).
  assert (EX : u32 (t - u32 (t / T * T)) = t mod T).
  { rewrite (u32_small (t / T * T)) by nia. rewrite u32_small by nia. lia. }
  rewrite EX.
  pose proof (u32_bounds (t mod T * W)) as HminX.
  pose proof (u32_le (t mod T * W) ltac:(nia)) as HleX.
  pose proof (u32_bounds (t / T * GetSizeY (colorBuffer r))) as HminY.
  assert (H0 : 0 <= u32 (t mod T * W) / T) by (apply Z.div_pos; lia).
  assert (HWT : 0 <= W / T) by (apply Z.div_pos; lia).
  split; [exact H0|]. split; [|apply Z.div_pos; lia].
  etransitivity; [apply u32_le; lia|].
  assert (Hq : u32 (t mod T * W) / T <= (T - 1) * W / T).
  { apply Z.div_le_mono; [lia|nia]. }
  assert (Hsum : (T - 1) * W / T + W / T <= W).
  { pose proof (Z.div_mod ((T - 1) * W) T ltac:(lia)).
    pose proof (Z.mod_pos_bound ((T - 1) * W) T ltac:(lia)).
    pose proof (Z.div_mod W T ltac:(lia)).
    pose proof (Z.mod_pos_bound W T ltac:(lia)).
    nia. }
  lia.
Qed.

Lemma tileEvents_framed r camera t :
  Spec.wellTyped r -> 0 <= t < tilesNum r ->
  Forall (Closed.framed r camera) (Closed.tileEvents r camera (tileBounds r t)).
Proof.
  intros Htyped Ht.
  destruct (tileBounds_in_frame r t Htyped Ht) as (HminX & HmaxX & HminY).
  unfold Closed.tileEvents. apply Forall_concat, Forall_map, Forall_forall.
  intros i Hi. apply elem_of_seqZ in Hi. cbn beta.
  apply Forall_concat, Forall_map, Forall_forall.
  intros j Hj. apply elem_of_seqZ in Hj. cbn beta.
  unfold Closed.pixelEvents, Closed.samplingEvents.
  destruct (bVariableSamplesPerPixel r); repeat constructor; lia.
Qed.

Lemma passEvents_framed r camera ids :
  Spec.wellTyped r -> Forall (fun t => 0 <= t < tilesNum r) ids ->
  Forall (Closed.framed r camera) (Closed.passEvents r camera ids).
Proof.
  intros Htyped Hids. unfold Closed.passEvents.
  apply Forall_concat, Forall_map. eapply Forall_impl; [exact Hids|].
  intros t Ht. cbn. apply tileEvents_framed; assumption.
Qed.

Lemma performAll_pixelEvents r camera i j b :
  performAll (Closed.pixelEvents r camera i j) b = Closed.paintPixel r camera i j b.
Proof.
  unfold Closed.pixelEvents, Closed.samplingEvents.
  destruct (bVariableSamplesPerPixel r); reflexivity.
Qed.

Lemma performAll_tileEvents r camera bounds b :
  performAll (Closed.tileEvents r camera bounds) b = Closed.paintTile r camera bounds b.
Proof.
  unfold performAll, Closed.tileEvents, Closed.paintTile.
  rewrite fold_left_concat_map. apply fold_left_pointwise. intros b1 i.
  rewrite fold_left_concat_map. apply fold_left_pointwise. intros b2 j.
  apply performAll_pixelEvents.
Qed.

(** The picture of the sequential pass is the effect of its events on
    the filled framebuffer. *)
Lemma paint_events r camera :
  Closed.paint r camera =
    performAll (Closed.passEvents r camera (seqZ 0 (tilesNum r)))
               (FillColor Spec.background (colorBuffer r)).
Proof.
  unfold Closed.paint, Closed.passEvents, performAll.
  rewrite fold_left_concat_map. apply fold_left_pointwise. intros b t.
  symmetry. apply performAll_tileEvents.
Qed.

(** What a pool has done so far: the framebuffer is the effect of the
    events done, and these with the events to do are the events of the
    start. *)
Lemma reachable_history p0 p :
  reachable p0 p ->
  exists done,
    buffer p = performAll done (buffer p0) /\
    done ++ concat (todo p) ≡ₚ concat (todo p0).
Proof.
  induction 1 as [|p n e p' _ (done & Hbuf & Hperm) Hstep].
  - exists []. split; reflexivity.
  - exists (done ++ [e]).
    assert (Hnext : exists rest, todo p !! n = Some (e :: rest) /\
                                 todo p' = <[n := rest]> (todo p) /\
                                 buffer p' = perform e (buffer p)).
    { destruct Hstep; eexists; repeat split; eassumption || reflexivity. }
    destruct Hnext as (rest & Hn & -> & ->). split.
    + rewrite Hbuf. unfold performAll. rewrite fold_left_app. reflexivity.
    + rewrite <- Hperm, (concat_insert_head _ _ _ _ Hn), <- app_assoc. reflexivity.
Qed.

Lemma finished_nothing_to_do p : finished p -> concat (todo p) = [].
Proof.
  unfold finished. generalize (todo p). intros progs.
  induction 1 as [|prog progs' -> _ IH]; [reflexivity|exact IH].
Qed.

Lemma start_events fuel heap r camera tilesOf :
  concat (todo (start fuel heap r camera tilesOf)) =
    Closed.passEvents r camera (concat tilesOf).
Proof.
  unfold start, Closed.passEvents. cbn [todo].
  rewrite concat_map_concat. f_equal. apply map_ext.
  intros t. apply workerEvents_run.
Qed.

(** However the tiles are dealt to the threads and however the threads
    take turns, a pass that has come to its end leaves the framebuffer
    of [Render]. *)
Theorem parallel_pass_is_Render fuel heap fuel' heap' r camera tilesOf p :
  Spec.wellTyped r ->
  concat tilesOf ≡ₚ seqZ 0 (tilesNum r) ->
  reachable (start fuel heap r camera tilesOf) p ->
  finished p ->
  Render fuel' heap' camera r = Some (withBuffer (buffer p) r).
Proof.
  intros Htyped Hdeal Hreach Hend.
  rewrite Render_run. do 2 f_equal.
  destruct (reachable_history _ _ Hreach) as (done & -> & Hperm).
  pose proof (finished_nothing_to_do p Hend) as Hnil.
  rewrite Hnil, app_nil_r, start_events in Hperm.
  rewrite paint_events. cbn [buffer start]. symmetry.
  apply (performAll_perm r camera).
  - rewrite Hperm. apply concat_map_perm, Hdeal.
  - apply passEvents_framed; [exact Htyped|].
    apply Forall_forall. intros t Ht. apply elem_of_seqZ in Ht. lia.
  - reflexivity.
Qed.
End ParallelPass.

(* ================================================================== *)
(** ** Properties: a pass comes to its end *)

Section Progress.
Import YAM YAR Worker Pool.

Lemma reachable_trans p0 p1 p2 :
  reachable p0 p1 -> reachable p1 p2 -> reachable p0 p2.
Proof.
  intros H01. induction 1 as [|p n e p' _ IH Hstep]; [exact H01|].
  exact (reach_step _ _ _ _ _ IH Hstep).
Qed.

(** A thread that respects the lock, and owns it exactly when it is
    inside, can do all its events, whatever the others have left. *)
Lemma thread_runs prog :
  forall p n inside,
    todo p !! n = Some prog ->
    wellLocked inside prog = true ->
    holder p = (if inside then Some n else None) ->
    exists p',
      reachable p p' /\ holder p' = None /\ todo p' = <[n := []]> (todo p).
Proof.
  induction prog as [|e rest IH]; intros p n inside Hn Hwell Hown.
  - exists p. destruct inside; [discriminate|].
    repeat split; [apply reach_start|exact Hown|].
    symmetry. apply list_insert_id, Hn.
  - assert (Hlen : (n < length (todo p))%nat) by (eapply lookup_lt_Some, Hn).
    assert (Hstep : exists inside' : bool,
               step p n e (mk (if inside' then Some n else None)
                              (<[n := rest]> (todo p)) (perform e (buffer p))) /\
               wellLocked inside' rest = true).
    { destruct e as [y x|k|k| |px py c|]; cbn in Hwell.
      - apply andb_prop in Hwell as [Hin Hwell]. exists inside.
        split; [|exact Hwell]. rewrite <- Hown.
        apply step_other; [exact Hn|discriminate|discriminate].
      - apply andb_prop in Hwell as [Hin Hwell]. exists inside.
        split; [|exact Hwell]. rewrite <- Hown.
        apply step_other; [exact Hn|discriminate|discriminate].
      - apply andb_prop in Hwell as [Hin Hwell]. exists inside.
        split; [|exact Hwell]. rewrite <- Hown.
        apply step_other; [exact Hn|discriminate|discriminate].
      - apply andb_prop in Hwell as [Hin Hwell]. exists true.
        split; [|exact Hwell]. destruct inside; [discriminate Hin|].
        apply (step_lock p n rest); [exact Hn|exact Hown].
      - apply andb_prop in Hwell as [Hin Hwell]. exists inside.
        split; [|exact Hwell]. rewrite <- Hown.
        apply step_other; [exact Hn|discriminate|discriminate].
      - apply andb_prop in Hwell as [Hin Hwell]. exists false.
        split; [|exact Hwell]. apply (step_unlock p n rest); exact Hn. }
    destruct Hstep as (inside' & Hstep & Hwell').
    destruct (IH (mk (if inside' then Some n else None)
                     (<[n := rest]> (todo p)) (perform e (buffer p))) n inside')
      as (p' & Hreach & Hfree & Htodo); [|exact Hwell'|reflexivity|].
    + cbn [todo]. apply list_lookup_insert_eq, Hlen.
    + exists p'. split.
      * eapply reachable_trans; [|exact Hreach].
        eapply reach_step; [apply reach_start|exact Hstep].
      * split; [exact Hfree|]. rewrite Htodo. cbn [todo].
        apply list_insert_insert_eq.
Qed.

(** With the lock free and every thread respecting it, the threads can
    be run to their ends one after the other. *)
Lemma threads_run (k : nat) :
  forall p,
    holder p = None ->
    Forall (fun prog => wellLocked false prog = true) (todo p) ->
    exists p',
      reachable p p' /\ holder p' = None /\
      todo p' = replicate (Nat.min k (length (todo p))) [] ++ drop k (todo p).
Proof.
  induction k as [|k IH]; intros p Hfree Hall.
  - exists p. repeat split; [apply reach_start|exact Hfree].
  - destruct (IH p Hfree Hall) as (p1 & Hreach1 & Hfree1 & Htodo1).
    destruct (todo p !! k) as [prog|] eqn:Hk.
    + assert (Hlen : (k < length (todo p))%nat) by (eapply lookup_lt_Some, Hk).
      assert (Hk1 : todo p1 !! k = Some prog).
      { rewrite Htodo1, lookup_app_r; rewrite length_replicate; [|lia].
        rewrite lookup_drop. replace (k + (k - Nat.min k (length (todo p))))%nat with k by lia.
        exact Hk. }
      destruct (thread_runs prog p1 k false Hk1) as (p2 & Hreach2 & Hfree2 & Htodo2).
      * rewrite Forall_forall in Hall. apply Hall. eapply list_elem_of_lookup_2, Hk.
      * exact Hfree1.
      * exists p2. split; [eapply reachable_trans; eassumption|].
        split; [exact Hfree2|]. rewrite Htodo2, Htodo1.
        replace (Nat.min k (length (todo p))) with k by lia.
        replace (Nat.min (S k) (length (todo p))) with (S k) by lia.
        rewrite (drop_S _ _ _ Hk).
        rewrite insert_app_r_alt; rewrite length_replicate; [|lia].
        replace (k - k)%nat with 0%nat by lia. cbn [insert list_insert].
        replace (S k) with (k + 1)%nat by lia.
        rewrite replicate_add. cbn. rewrite <- app_assoc. reflexivity.
    + apply lookup_ge_None in Hk.
      exists p1. split; [exact Hreach1|]. split; [exact Hfree1|].
      rewrite Htodo1. rewrite !drop_ge by lia.
      replace (Nat.min k (length (todo p))) with (length (todo p)) by lia.
      replace (Nat.min (S k) (length (todo p))) with (length (todo p)) by lia.
      reflexivity.
Qed.

Section WithScene.
Context {defs : Defines} {scn : Scene}.

(** A render pass can come to its end, however the tiles are dealt. *)
Lemma pass_can_finish fuel heap (r : Renderer) (camera : Camera) tilesOf :
  exists p, reachable (start fuel heap r camera tilesOf) p /\ finished p.
Proof.
  set (p0 := start fuel heap r camera tilesOf).
  destruct (threads_run (length (todo p0)) p0) as (p & Hreach & _ & Htodo).
  - reflexivity.
  - apply Forall_forall. intros prog Hin.
    apply list_elem_of_lookup in Hin as (n & Hn).
    exact (start_respectful fuel heap r camera tilesOf n prog Hn).
  - exists p. split; [exact Hreach|].
    unfold finished. rewrite Htodo, drop_all, app_nil_r.
    apply Forall_replicate. reflexivity.
Qed.

(** Two passes in succession, each with its own dealing of the tiles and
    its own turns of the threads, leave the same framebuffer. *)
Theorem passes_in_succession_agree fuel1 heap1 fuel2 heap2 (r : Renderer)
        (camera : Camera) tilesOf1 tilesOf2 p1 p2 :
  Spec.wellTyped r ->
  concat tilesOf1 ≡ₚ seqZ 0 (tilesNum r) ->
  concat tilesOf2 ≡ₚ seqZ 0 (tilesNum r) ->
  reachable (start fuel1 heap1 r camera tilesOf1) p1 -> finished p1 ->
  reachable (start fuel2 heap2 (withBuffer (buffer p1) r) camera tilesOf2) p2 ->
  finished p2 ->
  buffer p2 = buffer p1.
Proof.
  intros Htyped Hdeal1 Hdeal2 Hreach1 Hend1 Hreach2 Hend2.
  pose proof (parallel_pass_is_Render fuel1 heap1 0%nat heap1 r camera tilesOf1 p1
                Htyped Hdeal1 Hreach1 Hend1) as E1.
  rewrite Render_run in E1. injection E1 as E1.
  assert (Htyped1 : Spec.wellTyped (withBuffer (buffer p1) r)).
  { destruct Htyped as (HW & HH & HT).
    destruct (paint_shape r camera) as (Hx & Hy & _).
    unfold Spec.wellTyped, GetSizeX, GetSizeY in *.
    cbn [colorBuffer withBuffer tilesPerRow]. rewrite <- E1, Hx, Hy. auto. }
  pose proof (parallel_pass_is_Render fuel2 heap2 0%nat heap2 _ camera tilesOf2 p2
                Htyped1 Hdeal2 Hreach2 Hend2) as E2.
  rewrite Render_run in E2. injection E2 as E2.
  rewrite <- E2, <- E1. apply paint_again.
Qed.
End WithScene.
End Progress.

(* ================================================================== *)
(** ** Properties: the run as the language defines it *)

Section StrictRuns.
Import YAM YAR.
Context {defs : Defines} {scn : Scene}.
Implicit Types (r : Renderer) (camera : Camera) (w : Worker.t).

Lemma inside_spec n k : Strict.inside n k = true <-> 0 <= k < n.
Proof. unfold Strict.inside. rewrite andb_true_iff, Z.leb_le, Z.ltb_lt. tauto. Qed.

Lemma pixelDefined_spec r i :
  Closed.pixelDefined r i = true <->
  2 <= samplesPerPixel r /\
  (bVariableSamplesPerPixel r = true -> 0 <= i < samplesPerPixel r).
Proof.
  unfold Closed.pixelDefined. rewrite andb_true_iff, orb_true_iff, Z.leb_le, inside_spec.
  destruct (bVariableSamplesPerPixel r); cbn; intuition (auto; discriminate).
Qed.

(** A loop whose body has a result exactly for the values that pass a
    test. *)
Lemma forEach_guard {S X : Type} (g : X -> bool) (body body' : X -> S -> option S) :
  (forall v s, body v s = if g v then body' v s else None) ->
  forall l s, forEach body l s = if forallb g l then forEach body' l s else None.
Proof.
  intros Hbody l. induction l as [|v l IH]; intros s; cbn; [reflexivity|].
  rewrite Hbody. destruct (g v); cbn; [|reflexivity].
  destruct (body' v s) as [s'|]; [apply IH|].
  destruct (forallb g l); reflexivity.
Qed.

(** The strict run is the run of [YAR] where it is defined, and has no
    result elsewhere. *)
Lemma initialPhase_strict r camera i j w :
  Strict.initialPhase r camera i j w =
    if Closed.pixelDefined r i then initialPhase r camera i j w else None.
Proof.
  unfold Strict.initialPhase, initialPhase, Strict.initialSamples, initialSamples,
    Strict.needsMoreSamples, needsMoreSamples, Strict.store, Strict.load,
    Closed.pixelDefined, Strict.inside.
  rewrite seqZ_0_2.
  cbv [Worker.foldM mbind mret Worker.M_bind Worker.M_ret Worker.clear sample].
  change (0 <=? 0) with true. change (0 <=? 1) with true. cbn [andb].
  destruct (Z.leb_spec 2 (samplesPerPixel r)), (Z.ltb_spec 0 (samplesPerPixel r)),
    (Z.ltb_spec 1 (samplesPerPixel r)); try lia;
    destruct (bVariableSamplesPerPixel r);
    destruct (Z.leb_spec 0 i), (Z.ltb_spec i (samplesPerPixel r));
    try lia; reflexivity.
Qed.

Lemma extraSamples_strict_2_2 fuel r camera i j :
  Strict.extraSamples fuel r camera i j 2 2 = mret 2.
Proof. destruct fuel; reflexivity. Qed.

Lemma sumSamples_strict r w :
  2 <= samplesPerPixel r -> Strict.sumSamples r 2 w = sumSamples 2 w.
Proof.
  intros Hn. unfold Strict.sumSamples, sumSamples, Strict.load, Strict.inside.
  rewrite seqZ_0_2.
  cbv [Worker.foldM mbind mret Worker.M_bind Worker.M_ret].
  change (0 <=? 0) with true. change (0 <=? 1) with true. cbn [andb].
  destruct (Z.ltb_spec 0 (samplesPerPixel r)), (Z.ltb_spec 1 (samplesPerPixel r));
    try lia; reflexivity.
Qed.

Lemma samplePixelLoop_strict fuel r camera i j w :
  Strict.samplePixelLoop fuel r camera i j w =
    if Closed.pixelDefined r i then samplePixelLoop fuel r camera i j w else None.
Proof.
  unfold Strict.samplePixelLoop, samplePixelLoop.
  unfold mbind at 1 4. unfold Worker.M_bind at 1 4.
  rewrite initialPhase_strict.
  destruct (Closed.pixelDefined r i) eqn:Hok; [|reflexivity].
  apply pixelDefined_spec in Hok as (Hn & _).
  destruct (initialPhase_run r camera i j w) as (more & w1 & -> & _).
  assert (E1 : (if more then Strict.extraSamples fuel r camera i j 2 2 else mret 2)
               = mret 2).
  { destruct more; [apply extraSamples_strict_2_2 | reflexivity]. }
  assert (E2 : (if more then extraSamples fuel r camera i j 2 2 else mret 2) = mret 2).
  { destruct more; [apply extraSamples_2_2 | reflexivity]. }
  rewrite E1, E2.
  cbv [mbind mret Worker.M_bind Worker.M_ret].
  rewrite (sumSamples_strict r w1 Hn). reflexivity.
Qed.

Lemma renderPixel_strict fuel r camera i j st :
  Strict.renderPixel fuel r camera i j st =
    if Closed.pixelDefined r i then renderPixel fuel r camera i j st else None.
Proof.
  unfold Strict.renderPixel, renderPixel. rewrite samplePixelLoop_strict.
  destruct (Closed.pixelDefined r i); reflexivity.
Qed.

Lemma RenderWorker_strict capacity fuel heap r camera bounds buf :
  Strict.RenderWorker capacity fuel heap r camera bounds buf =
    if (samplesPerPixel r <=? capacity) && Closed.tileDefined r bounds
    then RenderWorker fuel heap r camera bounds buf else None.
Proof.
  unfold Strict.RenderWorker, RenderWorker, Strict.resize, Closed.tileDefined.
  destruct (samplesPerPixel r <=? capacity); [|reflexivity]. cbn.
  apply forEach_guard. intros i s.
  apply forEach_guard. intros j s'. apply renderPixel_strict.
Qed.

Lemma Render_strict capacity fuel heap camera r :
  Strict.Render capacity fuel heap camera r =
    if Closed.passDefined capacity r then Render fuel heap camera r else None.
Proof.
  unfold Strict.Render, Render, Strict.fillNumbers, Strict.intCounter, Closed.passDefined.
  destruct (tilesNum r <=? Strict.INT_MAX); [|reflexivity].
  destruct (tilesNum r <=? capacity); [|reflexivity]. cbn.
  rewrite (forEach_guard
             (fun tileID => (samplesPerPixel r <=? capacity) &&
                            Closed.tileDefined r (tileBounds r tileID))
             _ (fun tileID buf =>
                  snd <$> RenderWorker fuel heap r camera (tileBounds r tileID) buf)).
  - destruct (forallb _ _); reflexivity.
  - intros t b. rewrite RenderWorker_strict. destruct (_ && _); reflexivity.
Qed.

Lemma passDefined_withBuffer capacity b r :
  Spec.sameShape b (colorBuffer r) ->
  Closed.passDefined capacity (withBuffer b r) = Closed.passDefined capacity r.
Proof.
  intros (Hx & Hy & _).
  unfold Closed.passDefined, Closed.tileDefined, Closed.pixelDefined, tileBounds, tilesNum,
    GetSizeX, GetSizeY.
  cbn [colorBuffer withBuffer tilesPerRow samplesPerPixel bVariableSamplesPerPixel].
  rewrite Hx, Hy. reflexivity.
Qed.

(** A pass that returns has painted the picture of [Closed.paint]. *)
Lemma Render_strict_Some capacity fuel heap camera r r' :
  Strict.Render capacity fuel heap camera r = Some r' ->
  Closed.passDefined capacity r = true /\ r' = withBuffer (Closed.paint r camera) r.
Proof.
  rewrite Render_strict. destruct (Closed.passDefined capacity r); [|discriminate].
  rewrite Render_run. intros [= <-]. auto.
Qed.

Lemma RenderWorker_strict_Some capacity fuel heap r camera bounds buf w buf' :
  Strict.RenderWorker capacity fuel heap r camera bounds buf = Some (w, buf') ->
  RenderWorker fuel heap r camera bounds buf = Some (w, buf').
Proof.
  rewrite RenderWorker_strict. destruct (_ && _); [auto|discriminate].
Qed.
Lemma tileDefined_empty r bounds :
  maxX bounds <= minX bounds \/ maxY bounds <= minY bounds ->
  Closed.tileDefined r bounds = true.
Proof.
  intros Hempty. unfold Closed.tileDefined. destruct Hempty as [Hx|Hy].
  - rewrite (seqZ_nil (minX bounds)) by lia. cbn [forallb].
    induction (seqZ (minY bounds) (maxY bounds - minY bounds)) as [|i l IH];
      [reflexivity|exact IH].
  - rewrite (seqZ_nil (minY bounds)) by lia. reflexivity.
Qed.
End StrictRuns.

(* ================================================================== *)
(** ** The claims *)

Section Claims.
Import YAM YAR.
Context {defs : Defines} {scn : Scene}.
Implicit Types (r : Renderer) (camera : Camera) (w : Worker.t) (buf : Buffer).

(** C1 (the code falls short of it).  With adaptive sampling disabled
    and [samplesPerPixel = 8] the pixel loop ends with [numSamples = 2]
    after two calls of [SamplePixel], for every pixel: the loop of
    lines 78-81 is bounded by [numSamples], which is 2 when it is
    reached, and not by [samplesPerPixel]. *)
Theorem C1_two_samples_for_eight fuel buf tiles objs camera i j w :
  let r := mkRenderer buf 8 false tiles objs in
  exists finalColor w' events,
    samplePixelLoop fuel r camera i j w = Some ((2, finalColor), w') /\
    Worker.trace w' = rev events ++ Worker.trace w /\
    Spec.samplesTaken events = 2%nat /\
    samplesPerPixel r = 8.
Proof.
  intros r. destruct (samplePixelLoop_run fuel r camera i j w) as (w' & E & T).
  do 3 eexists. split; [exact E|]. split; [exact T|]. split; reflexivity.
Qed.


(** C6.  When no object of the scene reports a hit for the ray of the
    pixel, and so when the scene has no object at all, [SamplePixel]
    returns the zero vector. *)
Theorem C6_no_hit_is_black r camera y x :
  ((forall obj, obj ∈ renderables r -> Trace obj (GetRay camera x y) = None) ->
   SamplePixel r camera y x = Vector3_1 (of_Z 0)) /\
  (renderables r = [] -> SamplePixel r camera y x = Vector3_1 (of_Z 0)).
Proof.
  split; [apply SamplePixel_no_hit|].
  intros Hempty. apply SamplePixel_no_hit. rewrite Hempty.
  intros obj Hin. inversion Hin.
Qed.

(** C4, amended.  When some object reports a hit below the largest
    float for the ray of the pixel, [SamplePixel] returns the material
    colour of a reported hit times its light value,
    [min(1, max(0, dot(normal, -normalize((-1, -1, 1)))) + 0.1)].  That
    hit is below the largest float, no reported hit is nearer, and in
    the order of insertion it is the first such: what the objects before
    its own report is farther, or at a NaN. *)
Theorem C4_shades_the_closest_hit r camera y x :
  (exists h, Spec.reported r camera y x h /\ fltb (distance h) FLT_MAX = true) ->
  exists h,
    Spec.reported r camera y x h /\
    fltb (distance h) FLT_MAX = true /\
    (forall h', Spec.reported r camera y x h' ->
                fltb (distance h') (distance h) = false) /\
    (exists before obj after,
        renderables r = before ++ obj :: after /\
        Trace obj (GetRay camera x y) = Some h /\
        forall obj' h',
          obj' ∈ before -> Trace obj' (GetRay camera x y) = Some h' ->
          fltb (distance h) (distance h') = true \/ distance h' = S754_nan) /\
    SamplePixel r camera y x =
      mul (ToVector (color (material h))) (Spec.lightValue (normal h)).
Proof.
  intros (h0 & Hrep0 & Hbelow0).
  destruct (closest_invariant (GetRay camera x y) (renderables r)) as (Hmin & Hkept).
  unfold SamplePixel. cbv zeta.
  destruct (fold_left (closestStep (GetRay camera x y)) (renderables r) None)
    as [h|] eqn:Efold.
  - destruct (Hkept h eq_refl) as (Hbelow & before & obj & after & E & Hobj & Hfar).
    exists h. split.
    { exists obj. split; [|exact Hobj]. rewrite E.
      apply elem_of_app. right. apply list_elem_of_here. }
    split; [exact Hbelow|]. split; [exact Hmin|]. split; [|reflexivity].
    exists before, obj, after. split; [exact E|]. split; [exact Hobj|].
    intros obj' h' Hin Htr. apply Hfar. exists obj'. auto.
  - specialize (Hmin h0 Hrep0). cbn in Hmin. congruence.
Qed.

(** C7.  With no object registered, and the zero vector packed as the
    fill colour [0xff000000]: after a call of [Render] that returns,
    every pixel of the framebuffer is at the fill colour (and the
    framebuffer has the shape it had). *)
Theorem C7_empty_scene_is_background capacity fuel heap camera r r' :
  renderables r = [] ->
  hex (FromVector (Vector3_1 (of_Z 0))) = 0xff000000 ->
  Strict.Render capacity fuel heap camera r = Some r' ->
  Forall (fun c => c = 0xff000000) (GetData (colorBuffer r')) /\
  Spec.sameShape (colorBuffer r') (colorBuffer r).
Proof.
  intros Hempty Hblack Hrun.
  apply Render_strict_Some in Hrun as (_ & ->).
  cbn [colorBuffer withBuffer]. split; [|apply paint_shape].
  apply (paint_invariant (fun b => Forall (fun c => c = 0xff000000) (GetData b))).
  - intros i j b Hb. unfold Closed.paintPixel, Closed.pixelColour, SetPix, GetData; cbn.
    apply Forall_insert; [exact Hb|].
    rewrite SamplePixel_no_hit; [exact Hblack|].
    rewrite Hempty. intros obj Hin. inversion Hin.
  - unfold FillColor, GetData; cbn. apply Forall_replicate. reflexivity.
Qed.
End Claims.

Section ClaimsOfThePass.
Import YAM YAR.
Context {defs : Defines} {scn : Scene}.
Implicit Types (r : Renderer) (camera : Camera) (w : Worker.t) (buf : Buffer).

(** C8.  When a call of [Render] returns, a second call in succession
    with the same camera returns as well and leaves the same
    framebuffer, whatever the fuel and whatever lies behind the
    accumulators; and the first call from the same state gives the same
    result again. *)
Theorem C8_render_twice_same_framebuffer capacity fuel1 heap1 fuel2 heap2 camera r r1 :
  Strict.Render capacity fuel1 heap1 camera r = Some r1 ->
  exists r2,
    Strict.Render capacity fuel2 heap2 camera r1 = Some r2 /\
    colorBuffer r2 = colorBuffer r1 /\
    Strict.Render capacity fuel2 heap2 camera r = Some r1.
Proof.
  intros Hrun. apply Render_strict_Some in Hrun as (Hok & ->).
  rewrite !Render_strict, (passDefined_withBuffer _ _ _ (paint_shape r camera)), Hok.
  rewrite !Render_run. eexists. split; [reflexivity|]. split; [|reflexivity].
  cbn [colorBuffer withBuffer]. apply paint_again.
Qed.

(** C9.  In a render pass whose threads run calls of [RenderWorker]
    side by side under the one lock of the renderer, at every moment: a
    thread that writes a pixel of the framebuffer owns the lock, a
    thread that calls [SamplePixel] or uses its accumulator does not own
    it, and no two threads are about to write the framebuffer. *)
Theorem C9_writes_inside_the_lock fuel heap r camera tilesOf p :
  Pool.reachable (Pool.start fuel heap r camera tilesOf) p ->
  (forall n e p',
      Pool.step p n e p' ->
      (Pool.isPixel e = true -> Pool.holder p = Some n) /\
      (Pool.isSampling e = true -> Pool.holder p <> Some n)) /\
  (forall n1 n2, Pool.writing p n1 -> Pool.writing p n2 -> n1 = n2).
Proof.
  intros Hreach.
  pose proof (reachable_respectful _ _ (start_respectful fuel heap r camera tilesOf)
                                   Hreach) as Inv.
  split.
  - intros n e p' Hstep. destruct (step_next _ _ _ _ Hstep) as (rest & Hn).
    exact (respectful_next _ _ _ _ Inv Hn).
  - intros n1 n2 (e1 & rest1 & Hn1 & Hp1) (e2 & rest2 & Hn2 & Hp2).
    destruct (respectful_next _ _ _ _ Inv Hn1) as (Hown1 & _).
    destruct (respectful_next _ _ _ _ Inv Hn2) as (Hown2 & _).
    specialize (Hown1 Hp1). specialize (Hown2 Hp2). congruence.
Qed.

(** C10 (the code falls short of it).  With the settings of the
    constructor, [samplesPerPixel = 8] and adaptive sampling enabled,
    the pixel loop of a pixel of row 8 reads [samples[8]], an index
    that is not below [samplesPerPixel]; [numSamples] ends at 2. *)
Theorem C10_row_eight_reads_past_the_end fuel sx sy camera j w :
  let r := Renderer_new sx sy in
  exists finalColor w' events,
    samplePixelLoop fuel r camera 8 j w = Some ((2, finalColor), w') /\
    Worker.trace w' = rev events ++ Worker.trace w /\
    In (Worker.Read 8) events /\
    ~ Spec.inRange (samplesPerPixel r) events.
Proof.
  intros r. destruct (samplePixelLoop_run fuel r camera 8 j w) as (w' & E & T).
  eexists. exists w', (Closed.samplingEvents r 8 j).
  split; [exact E|]. split; [exact T|]. split.
  - cbn. tauto.
  - intros Hall. unfold Spec.inRange in Hall. rewrite Forall_forall in Hall.
    specialize (Hall (Worker.Read 8)). cbn in Hall.
    assert (Hin : Worker.Read 8 ∈ Closed.samplingEvents r 8 j).
    { apply list_elem_of_In. cbn. tauto. }
    specialize (Hall Hin). lia.
Qed.

(** C3, amended.  For sizes and a number of tiles per row that are
    32-bit values, with [tilesPerRow > 0] dividing the width and the
    height, and when neither [tilesPerRow * tilesPerRow] nor
    [(tilesPerRow - 1)] times the width or the height reaches [2^32]:
    [Render] goes through the tiles [0 .. tilesPerRow^2 - 1], the bounds
    of tile [t] are [minX = (t mod tilesPerRow) * width / tilesPerRow],
    [maxX = minX + width / tilesPerRow] and the like for Y, these
    rectangles are pairwise disjoint and every pixel of the image lies
    in one of them, hence in exactly one. *)
Theorem C3_tiles_partition_without_wrap r :
  0 < tilesPerRow r ->
  GetSizeX (colorBuffer r) mod tilesPerRow r = 0 ->
  GetSizeY (colorBuffer r) mod tilesPerRow r = 0 ->
  0 <= GetSizeX (colorBuffer r) < 2 ^ 32 ->
  0 <= GetSizeY (colorBuffer r) < 2 ^ 32 ->
  tilesPerRow r * tilesPerRow r < 2 ^ 32 ->
  (tilesPerRow r - 1) * GetSizeX (colorBuffer r) < 2 ^ 32 ->
  (tilesPerRow r - 1) * GetSizeY (colorBuffer r) < 2 ^ 32 ->
  tilesNum r = tilesPerRow r * tilesPerRow r /\
  (forall t, 0 <= t < tilesPerRow r * tilesPerRow r ->
             let b := tileBounds r t in
             minX b = t mod tilesPerRow r * GetSizeX (colorBuffer r) / tilesPerRow r /\
             maxX b = minX b + GetSizeX (colorBuffer r) / tilesPerRow r /\
             minY b = t / tilesPerRow r * GetSizeY (colorBuffer r) / tilesPerRow r /\
             maxY b = minY b + GetSizeY (colorBuffer r) / tilesPerRow r) /\
  Spec.partitions r.
Proof.
  intros. split; [apply tilesNum_exact; assumption|]. split.
  - intros t Ht. apply tileBounds_formulas; assumption.
  - apply tiles_partition; assumption.
Qed.
End ClaimsOfThePass.

(* ================================================================== *)
(** ** The claims on the small scene *)

Section OnTheDemoScene.
Import YAM YAR.
Existing Instance Demo.defines.
Existing Instance Demo.scene.

(** The renderer at work: a tile of an image of 64 by 64 pixels cut in
    4 by 4, a sample of the white wall, the events of one pixel and a
    pass over 2 by 2 pixels. *)
Example tile_5_of_16 :
  tileBounds (mkRenderer (Buffer_new 64 64) 8 true 4 []) 5
  = mkRenderBounds 16 16 32 32.
Proof. reflexivity. Qed.

Example white_wall_sample :
  SamplePixel (Demo.walled 8 8) Demo.camera 3 5
  = mkVector3 (of_Z 1) (of_Z 1) (of_Z 1).
Proof. vm_compute. reflexivity. Qed.

Example events_of_a_pixel :
  (fun st => rev (Worker.trace (fst st)))
    <$> renderPixel 0 (Demo.walled 8 8) Demo.camera 3 5
          (Worker.resize Demo.noHeap 8, colorBuffer (Demo.walled 8 8))
  = Some [Worker.Sampled 3 5; Worker.Written 0; Worker.Sampled 3 5;
          Worker.Written 1; Worker.Read 0; Worker.Read 3; Worker.Read 0;
          Worker.Read 1; Worker.Locked; Worker.Pixel 5 3 0xffffffff;
          Worker.Unlocked].
Proof. vm_compute. reflexivity. Qed.

Example pass_over_four_pixels :
  (fun r' => GetData (colorBuffer r'))
    <$> Render 0 Demo.noHeap Demo.camera
          (mkRenderer (Buffer_new 2 2) 8 true 2
                      [Demo.wall (of_Z 1) Demo.towardsLight Demo.white])
  = Some [0xffffffff; 0xffffffff; 0xffffffff; 0xffffffff].
Proof. vm_compute. reflexivity. Qed.

(** C2 (the code falls short of it).  A wall all white: every sample
    of every pixel is the same colour, yet with adaptive sampling
    enabled the test of line 77 says "converged" in rows 0 and 1 and
    "more samples" in row 2.  It compares [samples[0]] with
    [samples[i]], [i] the row, and not with [samples[1]]. *)
Theorem C2_test_depends_on_the_row :
  let r := Demo.walled 8 8 in
  let w := Worker.resize Demo.noHeap (samplesPerPixel r) in
  SamplePixel r Demo.camera 1 0 = SamplePixel r Demo.camera 2 0 /\
  fst <$> initialPhase r Demo.camera 0 0 w = Some (2, false) /\
  fst <$> initialPhase r Demo.camera 1 0 w = Some (2, false) /\
  fst <$> initialPhase r Demo.camera 2 0 w = Some (2, true).
Proof. vm_compute. repeat split. Qed.


(** C3 as stated fails.  An image [2^31] wide and 4 high with 4 tiles
    per row: the product of the tile column 2 and the width wraps to
    0, so that tiles 0 and 2 are the same rectangle. *)
Lemma C3_wide_image_tiles_overlap :
  let r := mkRenderer (Buffer_new (2 ^ 31) 4) 8 true 4 [] in
  0 < tilesPerRow r /\
  GetSizeX (colorBuffer r) mod tilesPerRow r = 0 /\
  GetSizeY (colorBuffer r) mod tilesPerRow r = 0 /\
  ~ Spec.partitions r.
Proof.
  intros r. repeat split.
  intros (Hdisjoint & _).
  specialize (Hdisjoint 0 2 0 0).
  assert (E : 0 = 2); [|discriminate E].
  apply Hdisjoint; lazy; repeat split; discriminate.
Qed.

(** C4 as stated fails.  The only object reports its hit at the
    largest float: the hit is not below the bound the search starts
    from, and the sample is black instead of the lit white. *)
Lemma C4_hit_at_the_largest_float_is_dropped :
  let r := Demo.farWalled 4 4 in
  ~ ((exists h, Spec.reported r Demo.camera 0 0 h) -> Spec.shadesClosest r Demo.camera 0 0).
Proof.
  intros r Hclaim.
  destruct Hclaim as (h & (obj & Hin & Htrace) & _ & Hshade).
  - exists (Demo.hit FLT_MAX Demo.towardsLight Demo.white).
    exists (Demo.wall FLT_MAX Demo.towardsLight Demo.white).
    split; [|reflexivity]. apply list_elem_of_In. left. reflexivity.
  - apply list_elem_of_In in Hin. destruct Hin as [<-|[]].
    injection Htrace as <-. vm_compute in Hshade. discriminate Hshade.
Qed.
End OnTheDemoScene.

(* ================================================================== *)
(** ** The theorems at work on the small scene *)

(** One step of thread [n] from the state reached so far; the new state
    is kept in normal form. *)
Ltac fire n :=
  lazymatch goal with
  | R : Pool.reachable ?p0 ?p |- _ =>
      let R' := fresh "R" in
      eassert (R' : Pool.reachable p0 _);
      [ eapply (Pool.reach_step p0 p n); [exact R|];
        first [ eapply Pool.step_lock; [vm_compute; reflexivity | reflexivity]
              | eapply Pool.step_unlock; vm_compute; reflexivity
              | eapply Pool.step_other;
                [vm_compute; reflexivity | discriminate | discriminate] ]
      | clear R; rename R' into R;
        lazymatch type of R with
        | Pool.reachable _ ?p' =>
            let q := eval vm_compute in p' in
            change (Pool.reachable p0 q) in R
        end ]
  end.

(** A call on the small scene returns: decided by running it. *)
Ltac returns :=
  lazymatch goal with
  | |- exists x, ?call = Some x =>
      let E := fresh "E" in
      destruct call eqn:E; [eauto|];
      apply (f_equal (fun o => match o with Some _ => true | None => false end)) in E;
      vm_compute in E; discriminate E
  end.

Section Witnesses.
Import YAM YAR.
Existing Instance Demo.defines.
Existing Instance Demo.scene.


(** An empty scene gives black. *)
Lemma C6_witness :
  let r := Demo.empty 4 4 in
  renderables r = [] /\ SamplePixel r Demo.camera 2 1 = Vector3_1 (of_Z 0).
Proof.
  intros r. split; [reflexivity|].
  apply (proj2 (C6_no_hit_is_black r Demo.camera 2 1)). reflexivity.
Defined.

(** The white wall at distance 1 is shaded. *)
Lemma C4_witness :
  let r := Demo.walled 4 4 in
  (exists h, Spec.reported r Demo.camera 0 0 h /\ fltb (distance h) FLT_MAX = true) /\
  exists h,
    Spec.reported r Demo.camera 0 0 h /\
    SamplePixel r Demo.camera 0 0 =
      mul (ToVector (color (material h))) (Spec.lightValue (normal h)).
Proof.
  intros r.
  assert (Hhit : exists h, Spec.reported r Demo.camera 0 0 h /\
                           fltb (distance h) FLT_MAX = true).
  { exists (Demo.hit (of_Z 1) Demo.towardsLight Demo.white).
    split; [|reflexivity].
    exists (Demo.wall (of_Z 1) Demo.towardsLight Demo.white).
    split; [|reflexivity]. apply list_elem_of_In. left. reflexivity. }
  split; [exact Hhit|].
  destruct (C4_shades_the_closest_hit r Demo.camera 0 0 Hhit)
    as (h & Hrep & _ & _ & _ & E).
  exists h. split; [exact Hrep|exact E].
Defined.

(** An image of 8 by 8 pixels without objects, on a machine that
    grants vectors of 64 elements: [Render] returns, and the image is at
    the fill colour. *)
Lemma C7_witness :
  let r := Demo.empty 8 8 in
  renderables r = [] /\
  hex (FromVector (Vector3_1 (of_Z 0))) = 0xff000000 /\
  exists r',
    Strict.Render 64 0 Demo.noHeap Demo.camera r = Some r' /\
    Forall (fun c => c = 0xff000000) (GetData (colorBuffer r')).
Proof.
  intros r. split; [reflexivity|]. split; [reflexivity|].
  assert (Hrun : exists r', Strict.Render 64 0 Demo.noHeap Demo.camera r = Some r')
    by returns.
  destruct Hrun as (r' & E). exists r'. split; [exact E|].
  exact (proj1 (C7_empty_scene_is_background 64 0 Demo.noHeap Demo.camera r r'
                  eq_refl eq_refl E)).
Defined.

(** The white wall on 8 by 8 pixels, rendered twice. *)
Lemma C8_witness :
  let r := Demo.walled 8 8 in
  exists r1 r2,
    Strict.Render 64 0 Demo.noHeap Demo.camera r = Some r1 /\
    Strict.Render 64 0 Demo.noHeap Demo.camera r1 = Some r2 /\
    colorBuffer r2 = colorBuffer r1.
Proof.
  intros r.
  assert (Hrun : exists r1, Strict.Render 64 0 Demo.noHeap Demo.camera r = Some r1)
    by returns.
  destruct Hrun as (r1 & E1).
  destruct (C8_render_twice_same_framebuffer 64 0 Demo.noHeap 0 Demo.noHeap
              Demo.camera r r1 E1) as (r2 & E2 & Hsame & _).
  exists r1, r2. auto.
Defined.

(** 64 by 64 pixels in 8 by 8 tiles. *)
Lemma C3_witness :
  let r := Demo.empty 64 64 in
  0 < tilesPerRow r /\ tilesNum r = 64 /\ Spec.partitions r.
Proof.
  intros r. split; [reflexivity|].
  destruct (C3_tiles_partition_without_wrap r) as (E & _ & Hpart);
    try reflexivity; try (cbn; lia).
  split; [exact E|exact Hpart].
Defined.

(** Two threads with two tiles each of an image of 2 by 2 pixels.
    Thread 0 has taken a sample, thread 1 has sampled its first pixel
    and taken the lock: it is about to write, and it alone. *)
Lemma C9_witness :
  let r := mkRenderer (Buffer_new 2 2) 8 true 2
                      [Demo.wall (of_Z 1) Demo.towardsLight Demo.white] in
  let p0 := Pool.start 0 Demo.noHeap r Demo.camera [[0; 1]; [2; 3]] in
  exists p,
    Pool.reachable p0 p /\
    Pool.holder p = Some 1%nat /\
    Pool.writing p 1 /\
    forall n1 n2, Pool.writing p n1 -> Pool.writing p n2 -> n1 = n2.
Proof.
  intros r p0.
  pose proof (Pool.reach_start p0) as R.
  fire 0%nat. fire 1%nat. fire 1%nat. fire 0%nat. do 7 fire 1%nat.
  match type of R with Pool.reachable _ ?p => exists p end.
  split; [exact R|]. split; [reflexivity|]. split.
  - do 2 eexists. split; [vm_compute; reflexivity|reflexivity].
  - exact (proj2 (C9_writes_inside_the_lock 0 Demo.noHeap r Demo.camera
                                            [[0; 1]; [2; 3]] _ R)).
Defined.
End Witnesses.

(* ================================================================== *)
(** ** Further properties: the arithmetic of binary32 *)

Section FloatAlgebra.
Import YAM.

Lemma fmul_comm (a b : flt) : fmul a b = fmul b a.
Proof.
  unfold fmul, SFmul.
  destruct a as [sa|sa| |sa ma ea], b as [sb|sb| |sb mb eb];
    try reflexivity; try (rewrite xorb_comm; reflexivity).
  rewrite (xorb_comm sa sb), (Pos.mul_comm ma mb), (Z.add_comm ea eb). reflexivity.
Qed.

Lemma fadd_comm (a b : flt) : fadd a b = fadd b a.
Proof.
  unfold fadd, SFadd.
  destruct a as [sa|sa| |sa ma ea], b as [sb|sb| |sb mb eb];
    try reflexivity;
    try (destruct sa, sb; reflexivity).
  rewrite (Z.min_comm ea eb), Z.add_comm. reflexivity.
Qed.

Lemma fneg_involutive (a : flt) : fneg (fneg a) = a.
Proof. destruct a as [s|s| |s m e]; cbn; rewrite ?negb_involutive; reflexivity. Qed.

Lemma fsub_fadd_fneg (a b : flt) : fsub a b = fadd a (fneg b).
Proof.
  unfold fsub, fadd, fneg, SFsub, SFadd, SFopp.
  destruct a as [sa|sa| |sa ma ea], b as [sb|sb| |sb mb eb];
    try reflexivity;
    try (destruct sa, sb; reflexivity).
Qed.

Lemma fmul_fneg_fneg (a b : flt) : fmul (fneg a) (fneg b) = fmul a b.
Proof.
  unfold fmul, fneg, SFmul, SFopp.
  destruct a as [sa|sa| |sa ma ea], b as [sb|sb| |sb mb eb];
    try reflexivity; destruct sa, sb; reflexivity.
Qed.

Lemma fmul_fabs_fabs (a : flt) : fmul (fabs a) (fabs a) = fmul a a.
Proof.
  unfold fmul, fabs, SFmul, SFabs.
  destruct a as [sa|sa| |sa ma ea]; try reflexivity; destruct sa; reflexivity.
Qed.

Lemma fabs_fneg (a : flt) : fabs (fneg a) = fabs a.
Proof. destruct a; reflexivity. Qed.

(** The sign of a rounded number is the sign given to the rounding. *)
Lemma binary_round_aux_sign s m e l :
  binary_round_aux prec emax (negb s) m e l = SFopp (binary_round_aux prec emax s m e l).
Proof.
  unfold binary_round_aux.
  destruct (shr_fexp prec emax m e l) as [mrs' e'].
  destruct (shr_fexp prec emax _ e' loc_Exact) as [mrs'' e''].
  destruct (shr_m mrs''); try reflexivity.
  destruct (_ <=? _); reflexivity.
Qed.

Lemma binary_normalize_opp m e :
  binary_normalize prec emax (- m) e false =
    match m with
    | 0 => S754_zero false
    | _ => SFopp (binary_normalize prec emax m e false)
    end.
Proof.
  destruct m as [|p|p]; [reflexivity| |];
    change (- Z.pos p) with (Z.neg p); change (- Z.neg p) with (Z.pos p);
    unfold binary_normalize, binary_round;
    destruct (shl_align _ _ _) as [mz ez].
  - apply (binary_round_aux_sign false).
  - rewrite <- (binary_round_aux_sign true). reflexivity.
Qed.

Lemma fmul_fneg_l (a b : flt) : fmul (fneg a) b = fneg (fmul a b).
Proof.
  unfold fmul, fneg, SFmul.
  destruct a as [sa|sa| |sa ma ea], b as [sb|sb| |sb mb eb];
    try reflexivity; try (destruct sa, sb; reflexivity).
  cbn [SFopp]. rewrite <- binary_round_aux_sign. destruct sa, sb; reflexivity.
Qed.

Lemma fdiv_fneg (a b : flt) : fdiv (fneg a) b = fneg (fdiv a b).
Proof.
  unfold fdiv, fneg, SFdiv.
  destruct a as [sa|sa| |sa ma ea], b as [sb|sb| |sb mb eb];
    try reflexivity; try (destruct sa, sb; reflexivity).
  cbn [SFopp].
  destruct (SFdiv_core_binary _ _ _ _ _ _) as [[mz ez] lz].
  rewrite <- binary_round_aux_sign. destruct sa, sb; reflexivity.
Qed.

(** The two differences of two numbers have one absolute value. *)
Lemma fabs_fsub_swap (a b : flt) : fabs (fsub a b) = fabs (fsub b a).
Proof.
  unfold fsub, SFsub.
  destruct a as [sa|sa| |sa ma ea], b as [sb|sb| |sb mb eb];
    try reflexivity;
    try (destruct sa, sb; reflexivity).
  rewrite (Z.min_comm eb ea).
  set (ez := Z.min ea eb).
  set (ca := cond_Zopp sa _). set (cb := cond_Zopp sb _).
  replace (cb - ca) with (- (ca - cb)) by lia.
  rewrite binary_normalize_opp.
  destruct (ca - cb); [reflexivity| |]; fold fneg; fold fabs; rewrite fabs_fneg;
    reflexivity.
Qed.

(** A number minus itself is [+0], or a NaN when the number is not
    finite. *)
Lemma fsub_diag (a : flt) :
  fsub a a = if Spec.isFinite a then S754_zero false else S754_nan.
Proof.
  unfold fsub, SFsub.
  destruct a as [sa|sa| |sa ma ea]; try (destruct sa; reflexivity); [reflexivity|].
  cbn [Spec.isFinite]. cbv zeta. rewrite Z.sub_diag. reflexivity.
Qed.

Lemma fltb_asym (a b : flt) : fltb a b = true -> fltb b a = false.
Proof.
  intros H. destruct (fltb b a) eqn:E; [|reflexivity].
  rewrite <- (fltb_irrefl a). symmetry. exact (fltb_trans _ _ _ H E).
Qed.

Lemma SFcompare_Eq_sym (a b : flt) :
  SFcompare a b = Some Eq -> SFcompare b a = Some Eq.
Proof.
  unfold SFcompare.
  destruct a as [sa|sa| |sa ma ea], b as [sb|sb| |sb mb eb];
    try discriminate; try reflexivity;
    try (destruct sa, sb; (discriminate || reflexivity)).
  destruct sa, sb; try discriminate.
  all: destruct (Z.compare_spec ea eb); try discriminate; subst; rewrite Z.compare_refl.
  all: change (Pos.compare_cont Eq) with Pos.compare;
    destruct (Pos.compare_spec ma mb); cbn; try discriminate; subst;
    rewrite Pos.compare_refl; reflexivity.
Qed.

Lemma feqb_sym (a b : flt) : feqb a b = feqb b a.
Proof.
  unfold feqb, SFeqb.
  destruct (SFcompare a b) as [[]|] eqn:E1.
  - rewrite (SFcompare_Eq_sym _ _ E1). reflexivity.
  - destruct (SFcompare b a) as [[]|] eqn:E2; try reflexivity.
    rewrite (SFcompare_Eq_sym _ _ E2) in E1. discriminate.
  - destruct (SFcompare b a) as [[]|] eqn:E2; try reflexivity.
    rewrite (SFcompare_Eq_sym _ _ E2) in E1. discriminate.
  - destruct (SFcompare b a) as [[]|] eqn:E2; try reflexivity.
    rewrite (SFcompare_Eq_sym _ _ E2) in E1. discriminate.
Qed.

(** [==] holds of a number and itself, a NaN apart. *)
Lemma feqb_refl (a : flt) : feqb a a = negb (Spec.isNaN a).
Proof.
  unfold feqb, SFeqb, SFcompare.
  destruct a as [[]|[]| |[] m e]; try reflexivity.
  all: rewrite Z.compare_refl; change (Pos.compare_cont Eq) with Pos.compare;
    rewrite Pos.compare_refl; reflexivity.
Qed.

(** [a - b] and [-(b - a)] are equal numbers (they differ in the sign
    of a zero), a NaN apart. *)
Lemma fsub_anti (a b : flt) :
  feqb (fsub a b) (fneg (fsub b a)) = negb (Spec.isNaN (fsub a b)).
Proof.
  destruct a as [sa|sa| |sa ma ea], b as [sb|sb| |sb mb eb];
    try reflexivity;
    try (destruct sa, sb; reflexivity).
  - destruct sb; exact (feqb_refl (S754_finite _ mb eb)).
  - destruct sa; exact (feqb_refl (S754_finite _ ma ea)).
  - unfold fsub, SFsub. rewrite (Z.min_comm eb ea).
    set (ez := Z.min ea eb).
    set (ca := cond_Zopp sa _). set (cb := cond_Zopp sb _).
    replace (cb - ca) with (- (ca - cb)) by lia.
    rewrite binary_normalize_opp.
    destruct (ca - cb) eqn:E; [reflexivity| |]; fold fneg;
      rewrite fneg_involutive; apply feqb_refl.
Qed.

Lemma binary_round_aux_not_negative m e l :
  fltb (binary_round_aux prec emax false m e l) (of_Z 0) = false.
Proof.
  unfold binary_round_aux.
  destruct (shr_fexp prec emax m e l) as [mrs' e'].
  destruct (shr_fexp prec emax _ e' loc_Exact) as [mrs'' e''].
  destruct (shr_m mrs''); try reflexivity.
  destruct (_ <=? _); reflexivity.
Qed.

Lemma binary_normalize_not_negative m e :
  0 <= m -> fltb (binary_normalize prec emax m e false) (of_Z 0) = false.
Proof.
  intros Hm. destruct m as [|p|p]; [reflexivity| |lia].
  unfold binary_normalize, binary_round.
  destruct (shl_align _ _ _) as [mz ez]. apply binary_round_aux_not_negative.
Qed.

(** What is above zero, or zero itself, plus a tenth is not below
    zero. *)
Lemma fadd_tenth_not_negative (a : flt) :
  fltb (fadd (fmax (of_Z 0) a) f0_1) (of_Z 0) = false.
Proof.
  unfold fmax. destruct (fltb (of_Z 0) a) eqn:Hpos; [|reflexivity].
  destruct a as [[]|[]| |[] m e]; try discriminate Hpos; try reflexivity.
  change f0_1 with (S754_finite false 13421773 (-27)).
  unfold fadd, SFadd. cbv zeta.
  apply binary_normalize_not_negative. cbn [cond_Zopp].
  apply Z.add_nonneg_nonneg; apply Pos2Z.is_nonneg.
Qed.
End FloatAlgebra.

(* ================================================================== *)
(** ** Further properties: Vector3 *)

Section Vector3Properties.
Import YAM.

Lemma Length_neg (v : Vector3) : Length (neg v) = Length v.
Proof. unfold Length, neg; cbn. rewrite !fmul_fneg_fneg. reflexivity. Qed.

(** X1.  [Dot] is symmetric in its two vectors: [a.Dot(b)] and
    [b.Dot(a)] are the same binary32 number, or both a NaN.  The
    products are the same numbers and they are added in the same
    order. *)
Theorem X1_Dot_symmetric (a b : Vector3) : Dot a b = Dot b a.
Proof.
  unfold Dot. rewrite (fmul_comm (x a)), (fmul_comm (y a)), (fmul_comm (z a)).
  reflexivity.
Qed.

(** X2.  [operator+] gives the same vector for both orders of its
    operands: each coordinate is the same binary32 number, or a NaN in
    both. *)
Theorem X2_add_commutes (a b : Vector3) : add a b = add b a.
Proof.
  unfold add. rewrite (fadd_comm (x a)), (fadd_comm (y a)), (fadd_comm (z a)).
  reflexivity.
Qed.

(** X3.  [a - b] is [a + (-b)], [a -= b] leaves what [a += -b] leaves,
    and the unary minus undoes itself: each coordinate is the same
    binary32 number on both sides, infinities and signed zeros
    included, or a NaN on both. *)
Theorem X3_sub_adds_the_opposite (a b : Vector3) :
  sub a b = add a (neg b) /\
  sub_assign a b = add_assign a (neg b) /\
  neg (neg a) = a.
Proof.
  assert (E : sub a b = add a (neg b)).
  { unfold sub, add, neg; cbn. rewrite !fsub_fadd_fneg. reflexivity. }
  split; [exact E|]. split; [exact E|].
  destruct a as [ax ay az]. unfold neg; cbn. rewrite !fneg_involutive. reflexivity.
Qed.

(** X4.  [Length] and [SquaredLength] do not see the signs of the
    coordinates: the opposite vector and [Abs()] have the length of the
    vector, and [Abs()] of the opposite is [Abs()] of the vector. *)
Theorem X4_Length_ignores_signs (v : Vector3) :
  Length (neg v) = Length v /\ Length (Abs v) = Length v /\
  SquaredLength (neg v) = SquaredLength v /\ SquaredLength (Abs v) = SquaredLength v /\
  Abs (neg v) = Abs v.
Proof.
  unfold Length, SquaredLength, neg, Abs; cbn.
  rewrite !fmul_fneg_fneg, !fmul_fabs_fabs, !fabs_fneg. auto 6.
Qed.

(** X5.  Multiplying and dividing by a scalar commute with the unary
    minus, for the member [operator*], the friend [operator*] and
    [operator/]: each coordinate is the same binary32 number on both
    sides, or a NaN on both. *)
Theorem X5_scaling_the_opposite (v : Vector3) (scalar : flt) :
  mul (neg v) scalar = neg (mul v scalar) /\
  scale scalar (neg v) = neg (scale scalar v) /\
  div (neg v) scalar = neg (div v scalar).
Proof.
  unfold scale, mul, div, neg; cbn. rewrite !fmul_fneg_l, !fdiv_fneg. auto.
Qed.

(** X6.  [IsNear] is symmetric in its two vectors, whatever the
    error. *)
Theorem X6_IsNear_symmetric (a b : Vector3) (error : flt) :
  IsNear a b error = IsNear b a error.
Proof. unfold IsNear. rewrite fabs_fsub_swap. reflexivity. Qed.

(** X7.  [IsNear] compares the lengths and nothing else: two vectors
    of one length are near exactly when that length is finite and the
    error is above zero, whatever their directions.  So a vector of
    infinite or NaN length is not near itself. *)
Theorem X7_IsNear_equal_lengths (a b : Vector3) (error : flt) :
  Length a = Length b ->
  IsNear a b error = Spec.isFinite (Length a) && fltb (of_Z 0) error.
Proof.
  intros E. unfold IsNear. rewrite <- E, fsub_diag.
  destruct (Spec.isFinite (Length a)); reflexivity.
Qed.

(** X8.  The cross product of a vector with itself: each coordinate is
    [+0] when the product of the two other coordinates is finite, and a
    NaN when that product overflows or is a NaN. *)
Theorem X8_Cross_with_itself (v : Vector3) :
  let component (product : flt) :=
    if Spec.isFinite product then of_Z 0 else S754_nan in
  Cross v v = mkVector3 (component (fmul (y v) (z v)))
                        (component (fmul (z v) (x v)))
                        (component (fmul (x v) (y v))).
Proof.
  intros component. unfold Cross.
  rewrite (fmul_comm (z v) (y v)), (fmul_comm (x v) (z v)), (fmul_comm (y v) (x v)).
  rewrite !fsub_diag. reflexivity.
Qed.

(** X9.  [a.Cross(b) == -(b.Cross(a))] holds by [operator==] exactly
    when no coordinate of [a.Cross(b)] is a NaN. *)
Theorem X9_Cross_anticommutes (a b : Vector3) :
  Vector3_eq (Cross a b) (neg (Cross b a)) =
    negb (Spec.isNaN (x (Cross a b))) && negb (Spec.isNaN (y (Cross a b)))
    && negb (Spec.isNaN (z (Cross a b))).
Proof.
  unfold Vector3_eq, Cross, neg; cbn [x y z].
  rewrite (fmul_comm (y b) (z a)), (fmul_comm (z b) (y a)),
          (fmul_comm (z b) (x a)), (fmul_comm (x b) (z a)),
          (fmul_comm (x b) (y a)), (fmul_comm (y b) (x a)).
  rewrite !fsub_anti. reflexivity.
Qed.

(** X10.  [operator==] is symmetric, [operator!=] is its negation
    (although it swaps the operands), and a vector is [==] to itself
    exactly when none of its coordinates is a NaN. *)
Theorem X10_Vector3_eq_laws (a b : Vector3) :
  Vector3_eq a b = Vector3_eq b a /\
  Vector3_ne a b = negb (Vector3_eq a b) /\
  Vector3_eq a a = negb (Spec.isNaN (x a) || Spec.isNaN (y a) || Spec.isNaN (z a)).
Proof.
  assert (S : Vector3_eq a b = Vector3_eq b a).
  { unfold Vector3_eq.
    rewrite (feqb_sym (x a)), (feqb_sym (y a)), (feqb_sym (z a)). reflexivity. }
  split; [exact S|]. split.
  - unfold Vector3_ne. rewrite S. reflexivity.
  - unfold Vector3_eq. rewrite !feqb_refl.
    destruct (Spec.isNaN (x a)), (Spec.isNaN (y a)), (Spec.isNaN (z a)); reflexivity.
Qed.

(** X11.  The order of [operator<], which compares lengths: it is
    irreflexive and transitive, [a < b] gives [a <= b], of two vectors
    one is [<=] the other (both ways when a length is a NaN), [>] is the
    negation of [<=] and [a >= b] is [b <= a]. *)
Theorem X11_Vector3_order_laws (a b c : Vector3) :
  Vector3_lt a a = false /\
  (Vector3_lt a b = true -> Vector3_lt b c = true -> Vector3_lt a c = true) /\
  (Vector3_lt a b = true -> Vector3_le a b = true) /\
  Vector3_le a b || Vector3_le b a = true /\
  Vector3_gt a b = negb (Vector3_le a b) /\
  Vector3_ge a b = Vector3_le b a.
Proof.
  unfold Vector3_gt, Vector3_ge, Vector3_le, Vector3_lt.
  split; [apply fltb_irrefl|]. split; [apply fltb_trans|].
  split; [intros Hlt; rewrite (fltb_asym _ _ Hlt); reflexivity|].
  split; [|split; [rewrite negb_involutive; reflexivity|reflexivity]].
  destruct (fltb (Length b) (Length a)) eqn:E; [|reflexivity].
  rewrite (fltb_asym _ _ E). reflexivity.
Qed.

Context {defs : Defines}.

(** X12.  For a vector whose length is not below [SmallNumber],
    [Normal] of the opposite vector is the opposite of [Normal] of the
    vector: each coordinate is the same binary32 number on both sides,
    or a NaN on both. *)
Theorem X12_Normal_of_the_opposite (v : Vector3) :
  fltb (Length v) SmallNumber = false ->
  Normal (neg v) = neg (Normal v).
Proof.
  intros Hlong. unfold Normal. rewrite Length_neg, Hlong.
  unfold div, neg; cbn. rewrite !fdiv_fneg. reflexivity.
Qed.
End Vector3Properties.

(* ================================================================== *)
(** ** Further properties: which pixels are written *)

Section Frame.
Import YAM YAR Worker Pool.
Context {defs : Defines} {scn : Scene}.
Implicit Types (r : Renderer) (camera : Camera) (b : Buffer).

(** Strip [k] of a side [S] cut in [T]: it lies inside the side, and
    ends before the last pixel when [T] does not divide [S]. *)
Lemma strip_inside k S T :
  0 < T -> 0 <= k <= T - 1 -> 0 <= S < 2 ^ 32 ->
  let lo := u32 (k * S) / T in
  let hi := u32 (lo + S / T) in
  0 <= lo /\ lo <= hi /\ hi <= S /\ (S mod T <> 0 -> hi <= S - 1).
Proof.
  intros HT Hk HS lo hi.
  pose proof (u32_bounds (k * S)) as Hb.
  pose proof (u32_le (k * S) ltac:(nia)) as Hle.
  assert (H0 : 0 <= lo) by (apply Z.div_pos; lia).
  assert (HST : 0 <= S / T) by (apply Z.div_pos; lia).
  assert (Hq : lo <= (T - 1) * S / T).
  { apply Z.div_le_mono; [lia|nia]. }
  pose proof (Z.div_mod ((T - 1) * S) T ltac:(lia)) as D1.
  pose proof (Z.mod_pos_bound ((T - 1) * S) T ltac:(lia)) as B1.
  pose proof (Z.div_mod S T ltac:(lia)) as D2.
  pose proof (Z.mod_pos_bound S T ltac:(lia)) as B2.
  assert (Hsum : (T - 1) * S / T + S / T <= S) by nia.
  assert (Ehi : hi = lo + S / T) by (apply u32_small; lia).
  rewrite Ehi. repeat split; try lia.
  intros Hrem.
  assert ((T - 1) * S / T + S / T <> S); [|lia].
  intros E. apply Hrem.
  assert (E2 : ((T - 1) * S) mod T + S mod T = 0) by nia.
  lia.
Qed.

(** The column and the row of a tile [Render] goes through. *)
Lemma tilesNum_column r t :
  Spec.wellTyped r -> 0 <= t < tilesNum r ->
  0 < tilesPerRow r /\
  u32 (t - u32 (t / tilesPerRow r * tilesPerRow r)) = t mod tilesPerRow r /\
  0 <= t mod tilesPerRow r <= tilesPerRow r - 1 /\
  0 <= t / tilesPerRow r <= tilesPerRow r - 1.
Proof.
  intros (HW & HH & HT) Ht.
  pose proof (u32_bounds (tilesPerRow r * tilesPerRow r)) as Hnum.
  fold (tilesNum r) in Hnum.
  assert (HTpos : 0 < tilesPerRow r).
  { destruct (Z.eq_dec (tilesPerRow r) 0) as [E|]; [|lia].
    unfold tilesNum in Ht. rewrite E in Ht. change (u32 (0 * 0)) with 0 in Ht. lia. }
  set (T := tilesPerRow r) in *.
  assert (HY : 0 <= t / T) by (apply Z.div_pos; lia).
  assert (Hdm : t = T * (t / T) + t mod T) by (apply Z.div_mod; lia).
  assert (Hmod : 0 <= t mod T < T) by (apply Z.mod_pos_bound; lia).
  assert (Hle : tilesNum r <= T * T) by (apply u32_le; nia).
  assert (HYT : t / T < T) by (apply Z.div_lt_upper_bound; lia).
  split; [exact HTpos|]. split; [|lia].
  rewrite (u32_small (t / T * T)) by nia. rewrite u32_small by nia. lia.
Qed.

(** The tiles [Render] hands out lie inside the frame, wrap-around or
    not; none reaches the last column when the width is not a multiple
    of [tilesPerRow], none the last row when the height is not. *)
Lemma tileBounds_inside r t :
  Spec.wellTyped r -> 0 <= t < tilesNum r ->
  let bounds := tileBounds r t in
  (0 <= minX bounds /\ minX bounds <= maxX bounds /\
   maxX bounds <= GetSizeX (colorBuffer r) /\
   (GetSizeX (colorBuffer r) mod tilesPerRow r <> 0 ->
    maxX bounds <= GetSizeX (colorBuffer r) - 1)) /\
  (0 <= minY bounds /\ minY bounds <= maxY bounds /\
   maxY bounds <= GetSizeY (colorBuffer r) /\
   (GetSizeY (colorBuffer r) mod tilesPerRow r <> 0 ->
    maxY bounds <= GetSizeY (colorBuffer r) - 1)).
Proof.
  intros Htyped Ht.
  destruct (tilesNum_column r t Htyped Ht) as (HT & EX & Hcol & Hrow).
  destruct Htyped as (HW & HH & _).
  unfold tileBounds. cbv zeta. cbn [minX maxX minY maxY]. rewrite EX. split.
  - exact (strip_inside (t mod tilesPerRow r) _ _ HT Hcol HW).
  - exact (strip_inside (t / tilesPerRow r) _ _ HT Hrow HH).
Qed.

(** The writes among the events of a tile: one for each pixel of the
    bounds, with the colour of the pixel. *)
Lemma tileEvents_pixel r camera bounds px py c :
  Pixel px py c ∈ Closed.tileEvents r camera bounds <->
  (minX bounds <= px < maxX bounds /\ minY bounds <= py < maxY bounds /\
   c = Closed.pixelColour r camera py px).
Proof.
  unfold Closed.tileEvents. rewrite list_elem_of_In, in_concat. split.
  - intros (l & Hl & Hin). apply in_map_iff in Hl as (i & <- & Hi).
    apply in_concat in Hin as (l & Hl & Hin). apply in_map_iff in Hl as (j & <- & Hj).
    apply list_elem_of_In, elem_of_seqZ in Hi. apply list_elem_of_In, elem_of_seqZ in Hj.
    unfold Closed.pixelEvents, Closed.samplingEvents in Hin.
    destruct (bVariableSamplesPerPixel r); cbn in Hin;
      repeat (destruct Hin as [Hin|Hin]; try discriminate Hin); try contradiction;
      injection Hin as <- <- <-; repeat split; lia.
  - intros (Hx & Hy & ->).
    exists (concat (map (fun j => Closed.pixelEvents r camera py j)
                        (seqZ (minX bounds) (maxX bounds - minX bounds)))).
    split.
    + apply in_map_iff. exists py. split; [reflexivity|].
      apply list_elem_of_In, elem_of_seqZ. lia.
    + apply in_concat. exists (Closed.pixelEvents r camera py px). split.
      * apply in_map_iff. exists px. split; [reflexivity|].
        apply list_elem_of_In, elem_of_seqZ. lia.
      * unfold Closed.pixelEvents. apply in_or_app. right. cbn. tauto.
Qed.

Lemma passEvents_pixel r camera ids px py c :
  Pixel px py c ∈ Closed.passEvents r camera ids <->
  exists t, t ∈ ids /\
    Spec.inBounds (tileBounds r t) px py /\ c = Closed.pixelColour r camera py px.
Proof.
  unfold Closed.passEvents. rewrite list_elem_of_In, in_concat. split.
  - intros (l & Hl & Hin). apply in_map_iff in Hl as (t & <- & Ht).
    apply list_elem_of_In, tileEvents_pixel in Hin.
    exists t. split; [apply list_elem_of_In, Ht|]. unfold Spec.inBounds. tauto.
  - intros (t & Ht & (Hx & Hy) & Hc).
    exists (Closed.tileEvents r camera (tileBounds r t)). split.
    + apply in_map_iff. exists t. split; [reflexivity|apply list_elem_of_In, Ht].
    + apply list_elem_of_In, tileEvents_pixel. tauto.
Qed.

(** Two pixels of the frame with one index are one pixel. *)
Lemma pixelIndex_inj w px py px' py' :
  0 <= px < w -> 0 <= py -> 0 <= px' < w -> 0 <= py' ->
  Closed.pixelIndex w px py = Closed.pixelIndex w px' py' -> px = px' /\ py = py'.
Proof.
  unfold Closed.pixelIndex. intros Hx Hy Hx' Hy' E.
  apply Z2Nat.inj in E; [|nia|nia].
  assert (py = py') by (destruct (Z.lt_trichotomy py py') as [|[|]]; [nia|assumption|nia]).
  subst py'. lia.
Qed.

Lemma colourAt_pixelIndex r camera px py :
  0 <= px < GetSizeX (colorBuffer r) -> 0 <= py ->
  Closed.colourAt r camera (Closed.pixelIndex (GetSizeX (colorBuffer r)) px py)
  = Closed.pixelColour r camera py px.
Proof.
  intros Hpx Hpy. unfold Closed.colourAt, Closed.pixelIndex.
  rewrite Z2Nat.id by nia. f_equal.
  - rewrite Z.div_add_l by lia. rewrite Z.div_small by lia. lia.
  - rewrite Z.add_comm, Z.mod_add by lia. apply Z.mod_small. lia.
Qed.

(** Whether some event of a list of framed events writes pixel
    [(px, py)] of the frame. *)
Lemma writesAt_pixel r camera l px py :
  0 <= px < GetSizeX (colorBuffer r) -> 0 <= py ->
  Forall (Closed.framed r camera) l ->
  existsb (Closed.writesAt (GetSizeX (colorBuffer r))
                           (Closed.pixelIndex (GetSizeX (colorBuffer r)) px py)) l = true
  <-> exists c, Pixel px py c ∈ l.
Proof.
  intros Hpx Hpy Hall. rewrite existsb_exists. split.
  - intros (e & Hin & He). destruct e as [| | | |px' py' c|]; try discriminate He.
    cbn in He. apply Nat.eqb_eq in He.
    rewrite Forall_forall in Hall.
    destruct (Hall _ (proj2 (list_elem_of_In _ _) Hin)) as (Hpx' & Hpy' & _).
    destruct (pixelIndex_inj _ _ _ _ _ Hpx' Hpy' Hpx Hpy He) as (-> & ->).
    exists c. apply list_elem_of_In, Hin.
  - intros (c & Hin). exists (Pixel px py c). split; [apply list_elem_of_In, Hin|].
    cbn. apply Nat.eqb_refl.
Qed.

(** A pixel of the frame after some framed writes. *)
Lemma performAll_GetPix r camera l b px py :
  sizeX b = GetSizeX (colorBuffer r) ->
  Forall (Closed.framed r camera) l ->
  0 <= px < GetSizeX (colorBuffer r) -> 0 <= py ->
  ((exists c, Pixel px py c ∈ l) ->
   GetPix px py (performAll l b) =
     (fun _ => Closed.pixelColour r camera py px) <$> GetPix px py b) /\
  ((forall c, Pixel px py c ∉ l) ->
   GetPix px py (performAll l b) = GetPix px py b).
Proof.
  intros Hsize Hall Hpx Hpy.
  destruct (performAll_shape l b) as (Hx & _).
  unfold GetPix. rewrite Hx, Hsize.
  fold (Closed.pixelIndex (GetSizeX (colorBuffer r)) px py).
  rewrite (performAll_lookup r camera l b _ Hsize Hall).
  pose proof (writesAt_pixel r camera l px py Hpx Hpy Hall) as Hw.
  destruct (existsb _ l).
  - split.
    + intros _. rewrite colourAt_pixelIndex by assumption. reflexivity.
    + intros Hno. destruct (proj1 Hw eq_refl) as (c & Hc). destruct (Hno c Hc).
  - split; [|reflexivity].
    intros Hsome. apply Hw in Hsome. discriminate Hsome.
Qed.

Lemma tileEvents_framed_inside r camera bounds :
  0 <= minX bounds -> maxX bounds <= GetSizeX (colorBuffer r) -> 0 <= minY bounds ->
  Forall (Closed.framed r camera) (Closed.tileEvents r camera bounds).
Proof.
  intros HminX HmaxX HminY. apply Forall_forall. intros e He.
  destruct e as [| | | |px py c|]; cbn; try exact I.
  apply tileEvents_pixel in He as (Hx & Hy & ->). repeat split; lia.
Qed.

Lemma GetPix_FillColor c b px py :
  GetPix px py (FillColor c b) = (fun _ => c) <$> GetPix px py b.
Proof.
  unfold GetPix, FillColor; cbn.
  destruct (data b !! Z.to_nat (py * sizeX b + px)) as [c0|] eqn:E; cbn.
  - apply lookup_replicate_2. eapply lookup_lt_Some, E.
  - apply lookup_ge_None_2. rewrite length_replicate. apply lookup_ge_None_1, E.
Qed.

Lemma passEvents_all_framed r camera :
  Spec.wellTyped r ->
  Forall (Closed.framed r camera)
         (Closed.passEvents r camera (seqZ 0 (tilesNum r))).
Proof.
  intros Htyped. apply passEvents_framed; [exact Htyped|].
  apply Forall_forall. intros t Ht. apply elem_of_seqZ in Ht. lia.
Qed.

(** A pixel of the frame after [Render]: the colour of its two
    samples when some tile holds it, the fill colour when none does. *)
Lemma paint_GetPix r camera px py :
  Spec.wellTyped r ->
  0 <= px < GetSizeX (colorBuffer r) -> 0 <= py ->
  ((exists t, 0 <= t < tilesNum r /\ Spec.inBounds (tileBounds r t) px py) ->
   GetPix px py (Closed.paint r camera) =
     (fun _ => Closed.pixelColour r camera py px) <$> GetPix px py (colorBuffer r)) /\
  ((forall t, 0 <= t < tilesNum r -> ~ Spec.inBounds (tileBounds r t) px py) ->
   GetPix px py (Closed.paint r camera) =
     (fun _ => Spec.background) <$> GetPix px py (colorBuffer r)).
Proof.
  intros Htyped Hpx Hpy. rewrite paint_events.
  destruct (performAll_GetPix r camera _ (FillColor Spec.background (colorBuffer r))
              px py eq_refl (passEvents_all_framed r camera Htyped) Hpx Hpy)
    as (Hin & Hout).
  rewrite GetPix_FillColor in Hin, Hout. split.
  - intros (t & Ht & Hb). rewrite Hin.
    + destruct (GetPix px py (colorBuffer r)); reflexivity.
    + exists (Closed.pixelColour r camera py px). apply passEvents_pixel.
      exists t. split; [apply elem_of_seqZ; lia|]. auto.
  - intros Hno. apply Hout. intros c Hc.
    apply passEvents_pixel in Hc as (t & Ht & Hb & _).
    apply elem_of_seqZ in Ht. apply (Hno t); [lia|exact Hb].
Qed.

(** A tile without pixels: no event and no change. *)
Lemma paintTile_events_empty r camera bounds buf :
  maxX bounds <= minX bounds \/ maxY bounds <= minY bounds ->
  Closed.tileEvents r camera bounds = [] /\ Closed.paintTile r camera bounds buf = buf.
Proof.
  intros Hempty. rewrite <- performAll_tileEvents.
  assert (E : Closed.tileEvents r camera bounds = []); [|rewrite E; auto].
  unfold Closed.tileEvents. destruct Hempty as [Hx|Hy].
  - rewrite (seqZ_nil (minX bounds)) by lia. cbn [map concat].
    induction (seqZ (minY bounds) (maxY bounds - minY bounds)) as [|i l IH];
      [reflexivity|exact IH].
  - rewrite (seqZ_nil (minY bounds)) by lia. reflexivity.
Qed.

Lemma paint_of_empty_tiles r camera :
  (forall t, 0 <= t < tilesNum r ->
             maxX (tileBounds r t) <= minX (tileBounds r t) \/
             maxY (tileBounds r t) <= minY (tileBounds r t)) ->
  Closed.paint r camera = FillColor Spec.background (colorBuffer r).
Proof.
  intros Hempty. unfold Closed.paint.
  assert (Hall : Forall (fun t => 0 <= t < tilesNum r) (seqZ 0 (tilesNum r))).
  { apply Forall_forall. intros t Ht. apply elem_of_seqZ in Ht. lia. }
  revert Hall. generalize (FillColor Spec.background (colorBuffer r)).
  induction (seqZ 0 (tilesNum r)) as [|t l IH]; intros b Hall; [reflexivity|].
  apply Forall_cons in Hall as (Ht & Hall). cbn [fold_left].
  rewrite (proj2 (paintTile_events_empty r camera _ b (Hempty t Ht))).
  apply IH, Hall.
Qed.
End Frame.

(* ================================================================== *)
(** ** Further properties: SamplePixel, RenderWorker and Render *)

Section RendererProperties.
Import YAM YAR Worker Pool.
Context {defs : Defines} {scn : Scene}.
Implicit Types (r : Renderer) (camera : Camera) (b : Buffer).

Lemma SamplePixel_AddRenderable obj r camera y x :
  SamplePixel (AddRenderable obj r) camera y x =
    match closestStep (GetRay camera x y)
            (fold_left (closestStep (GetRay camera x y)) (renderables r) None) obj with
    | Some closestHit => shade closestHit
    | None => Vector3_1 (of_Z 0)
    end.
Proof.
  unfold SamplePixel, AddRenderable. cbn [renderables]. cbv zeta.
  rewrite fold_left_app. reflexivity.
Qed.

(** X13.  A hit below the largest float that is strictly nearer than
    every other hit reported for the ray is the one shaded, wherever
    its object stands in the order of insertion. *)
Theorem X13_nearest_hit_is_shown r camera y x nearest :
  Spec.reported r camera y x nearest ->
  fltb (distance nearest) FLT_MAX = true ->
  (forall h, Spec.reported r camera y x h ->
             h = nearest \/ fltb (distance nearest) (distance h) = true) ->
  SamplePixel r camera y x =
    mul (ToVector (color (material nearest))) (Spec.lightValue (normal nearest)).
Proof.
  intros Hrep Hvalid Hnearest.
  destruct (closest_invariant (GetRay camera x y) (renderables r)) as (Hmin & Hkept).
  cbv zeta in Hmin, Hkept. unfold SamplePixel. cbv zeta.
  destruct (fold_left (closestStep (GetRay camera x y)) (renderables r) None)
    as [h|] eqn:Efold.
  - destruct (Hkept h eq_refl) as (_ & before & obj & after & E & Hobj & _).
    destruct (Hnearest h) as [-> | Hlt]; [|reflexivity|].
    + exists obj. split; [|exact Hobj]. rewrite E.
      apply elem_of_app. right. apply list_elem_of_here.
    + specialize (Hmin nearest Hrep). cbn in Hmin. congruence.
  - specialize (Hmin nearest Hrep). cbn in Hmin. congruence.
Qed.

(** X14.  [AddRenderable] of an object leaves the sample of a pixel as
    it was when the object reports no hit for the ray, or reports one
    that is not below the largest float (so also at infinity or at a
    NaN), or one that is not strictly nearer than some hit below the
    largest float that an earlier object reports. *)
Theorem X14_added_object_behind_is_hidden obj r camera y x :
  Trace obj (GetRay camera x y) = None \/
  (exists hitInfo,
      Trace obj (GetRay camera x y) = Some hitInfo /\
      (fltb (distance hitInfo) FLT_MAX = false \/
       exists h, Spec.reported r camera y x h /\
                 fltb (distance h) FLT_MAX = true /\
                 fltb (distance hitInfo) (distance h) = false)) ->
  SamplePixel (AddRenderable obj r) camera y x = SamplePixel r camera y x.
Proof.
  intros Hbehind. rewrite SamplePixel_AddRenderable. unfold SamplePixel. cbv zeta.
  destruct (closest_invariant (GetRay camera x y) (renderables r)) as (Hmin & Hkept).
  cbv zeta in Hmin, Hkept.
  set (acc := fold_left (closestStep (GetRay camera x y)) (renderables r) None) in *.
  unfold closestStep.
  destruct Hbehind as [-> | (hitInfo & -> & Hfar)]; [reflexivity|].
  destruct (fltb (distance hitInfo) (closestDistance acc)) eqn:Elt; [|reflexivity].
  exfalso.
  assert (Hbelow : fltb (distance hitInfo) FLT_MAX = true).
  { destruct acc as [h0|]; [|exact Elt].
    destruct (Hkept h0 eq_refl) as (H0 & _). exact (fltb_trans _ _ _ Elt H0). }
  destruct Hfar as [Hfar | (h & Hrep & Hvalid & Hnot)]; [congruence|].
  specialize (Hmin h Hrep).
  destruct (fltb_below_rest _ _ _ Elt Hmin) as [Hlt | Hnan]; [congruence|].
  rewrite Hnan in Hvalid. discriminate Hvalid.
Qed.

(** X15.  The light value a hit is shaded with is never a NaN, never
    below 0 and never above 1, whatever the normal of the hit (also one
    with NaN or infinite coordinates); it is exactly [0.1f] when the dot
    product of the normal with the direction towards the light is not
    above 0, or is a NaN. *)
Theorem X15_light_value_between_0_and_1 (closestHit : RenderHitInfo) :
  exists lightValue,
    shade closestHit = mul (ToVector (color (material closestHit))) lightValue /\
    Spec.isNaN lightValue = false /\
    fltb lightValue (of_Z 0) = false /\
    fltb (of_Z 1) lightValue = false /\
    (fltb (of_Z 0) (Dot (normal closestHit) (neg (Normal lightDir))) = false ->
     lightValue = f0_1).
Proof.
  eexists. split; [reflexivity|].
  set (d := Dot (normal closestHit) (neg (Normal lightDir))).
  pose proof (fadd_tenth_not_negative d) as Hsign.
  set (s := fadd (fmax (of_Z 0) d) f0_1) in *.
  unfold fmin.
  destruct (fltb s (of_Z 1)) eqn:Hlt.
  - split; [destruct s; try reflexivity; discriminate Hlt|].
    split; [exact Hsign|]. split; [apply fltb_asym, Hlt|].
    intros Haway. subst s. unfold fmax. rewrite Haway. vm_compute. reflexivity.
  - split; [reflexivity|]. split; [vm_compute; reflexivity|].
    split; [vm_compute; reflexivity|].
    intros Haway. subst s. unfold fmax in Hlt. rewrite Haway in Hlt.
    vm_compute in Hlt. discriminate Hlt.
Qed.

(** X16.  The pixel loop returns exactly when [samplesPerPixel] is at
    least 2 and, with adaptive sampling enabled, the row of the pixel is
    below [samplesPerPixel]; in every other case it makes an access
    outside [samples].  When it returns, it has taken two samples. *)
Theorem X16_pixel_loop_range_safety fuel r camera i j w :
  ((exists result w', Strict.samplePixelLoop fuel r camera i j w = Some (result, w')) <->
   2 <= samplesPerPixel r /\
   (bVariableSamplesPerPixel r = true -> 0 <= i < samplesPerPixel r)) /\
  (forall result w',
      Strict.samplePixelLoop fuel r camera i j w = Some (result, w') ->
      result.1 = 2).
Proof.
  rewrite samplePixelLoop_strict, <- pixelDefined_spec.
  destruct (samplePixelLoop_run fuel r camera i j w) as (w0 & E & _).
  destruct (Closed.pixelDefined r i); split.
  - split; [reflexivity|]. intros _. rewrite E. eauto.
  - rewrite E. intros result w' [= <- _]. reflexivity.
  - split; [intros (result & w' & Hno); discriminate Hno | discriminate].
  - discriminate.
Qed.

(** X17.  Two renderers that differ only in [samplesPerPixel] and
    [bVariableSamplesPerPixel]: when [Render] returns for both, it
    leaves the same framebuffer.  The two settings decide whether the
    call returns, not what it paints. *)
Theorem X17_sampling_settings_do_not_matter capacity1 fuel1 heap1 capacity2 fuel2 heap2
        camera buf tiles objs samples1 adaptive1 samples2 adaptive2 r1 r2 :
  Strict.Render capacity1 fuel1 heap1 camera
                (mkRenderer buf samples1 adaptive1 tiles objs) = Some r1 ->
  Strict.Render capacity2 fuel2 heap2 camera
                (mkRenderer buf samples2 adaptive2 tiles objs) = Some r2 ->
  colorBuffer r1 = colorBuffer r2.
Proof.
  intros H1 H2.
  apply Render_strict_Some in H1 as (_ & ->).
  apply Render_strict_Some in H2 as (_ & ->). reflexivity.
Qed.

(** X18.  A call of [RenderWorker] that returns, on bounds that lie
    inside the columns of the framebuffer, has changed of the pixels of
    the frame exactly those of its bounds: such a pixel holds the packed
    mean of its two samples, every other pixel is as before. *)
Theorem X18_RenderWorker_paints_its_bounds capacity fuel heap r camera bounds buf
        w buf' px py :
  sizeX buf = GetSizeX (colorBuffer r) ->
  0 <= minX bounds -> maxX bounds <= GetSizeX (colorBuffer r) -> 0 <= minY bounds ->
  0 <= px < GetSizeX (colorBuffer r) -> 0 <= py ->
  Strict.RenderWorker capacity fuel heap r camera bounds buf = Some (w, buf') ->
  let s := SamplePixel r camera py px in
  (Spec.inBounds bounds px py ->
   GetPix px py buf' =
     (fun _ => hex (FromVector (Spec.mean [s; s]))) <$> GetPix px py buf) /\
  (~ Spec.inBounds bounds px py -> GetPix px py buf' = GetPix px py buf).
Proof.
  intros Hsize HminX HmaxX HminY Hpx Hpy Hrun s.
  apply RenderWorker_strict_Some in Hrun.
  destruct (RenderWorker_run fuel heap r camera bounds buf) as (w0 & E & _).
  rewrite E in Hrun. injection Hrun as _ <-.
  rewrite <- performAll_tileEvents.
  destruct (performAll_GetPix r camera _ buf px py Hsize
              (tileEvents_framed_inside r camera bounds HminX HmaxX HminY) Hpx Hpy)
    as (Hin & Hout).
  split.
  - intros (Hx & Hy). apply Hin. exists (Closed.pixelColour r camera py px).
    apply tileEvents_pixel. auto.
  - intros Hno. apply Hout. intros c Hc. apply tileEvents_pixel in Hc as (Hx & Hy & _).
    apply Hno. split; assumption.
Qed.


(** X20.  Every write of a call of [RenderWorker] that [Render] makes
    goes to a pixel inside the frame, for all 32-bit sizes and numbers
    of tiles per row, wrap-around of the products included. *)
Theorem X20_writes_stay_in_the_frame fuel heap r camera tileID buf w buf' px py c :
  Spec.wellTyped r -> 0 <= tileID < tilesNum r ->
  RenderWorker fuel heap r camera (tileBounds r tileID) buf = Some (w, buf') ->
  Pixel px py c ∈ Worker.trace w ->
  0 <= px < GetSizeX (colorBuffer r) /\ 0 <= py < GetSizeY (colorBuffer r).
Proof.
  intros Htyped Ht Hrun Hin.
  destruct (RenderWorker_run fuel heap r camera (tileBounds r tileID) buf) as (w0 & E & T).
  rewrite E in Hrun. injection Hrun as <- _. rewrite T in Hin.
  apply list_elem_of_In, in_rev, list_elem_of_In, tileEvents_pixel in Hin
    as (Hx & Hy & _).
  destruct (tileBounds_inside r tileID Htyped Ht) as (HX & HY). lia.
Qed.

(** X21.  When [tilesPerRow] divides the width and the height and no
    product wraps around: after a call of [Render] that returns, every
    pixel of the image that the framebuffer holds has the packed mean of
    its two samples. *)
Theorem X21_Render_paints_every_pixel capacity fuel heap camera r r' px py :
  0 < tilesPerRow r ->
  GetSizeX (colorBuffer r) mod tilesPerRow r = 0 ->
  GetSizeY (colorBuffer r) mod tilesPerRow r = 0 ->
  0 <= GetSizeX (colorBuffer r) < 2 ^ 32 ->
  0 <= GetSizeY (colorBuffer r) < 2 ^ 32 ->
  tilesPerRow r * tilesPerRow r < 2 ^ 32 ->
  (tilesPerRow r - 1) * GetSizeX (colorBuffer r) < 2 ^ 32 ->
  (tilesPerRow r - 1) * GetSizeY (colorBuffer r) < 2 ^ 32 ->
  0 <= px < GetSizeX (colorBuffer r) ->
  0 <= py < GetSizeY (colorBuffer r) ->
  Strict.Render capacity fuel heap camera r = Some r' ->
  let s := SamplePixel r camera py px in
  GetPix px py (colorBuffer r') =
    (fun _ => hex (FromVector (Spec.mean [s; s]))) <$> GetPix px py (colorBuffer r).
Proof.
  intros HT HWm HHm HW HH HTT HWf HHf Hpx Hpy Hrun s.
  apply Render_strict_Some in Hrun as (_ & ->). cbn [colorBuffer withBuffer].
  assert (Htyped : Spec.wellTyped r) by (unfold Spec.wellTyped; repeat split; nia).
  apply (paint_GetPix r camera px py Htyped Hpx); [lia|].
  destruct (tiles_partition r HT HWm HHm HW HH HTT HWf HHf) as (_ & Hcover).
  exact (Hcover px py Hpx Hpy).
Qed.

(** X22.  The ragged edge.  After a call of [Render] that returns:
    when the width is not a multiple of [tilesPerRow], the whole last
    column of the image is at the fill colour [0xff000000], whatever the
    scene; when the height is not a multiple, the whole last row. *)
Theorem X22_Render_leaves_the_ragged_edge capacity fuel heap camera r r' :
  Spec.wellTyped r -> 0 < tilesPerRow r ->
  Strict.Render capacity fuel heap camera r = Some r' ->
  (GetSizeX (colorBuffer r) mod tilesPerRow r <> 0 ->
   forall py, 0 <= py ->
     GetPix (GetSizeX (colorBuffer r) - 1) py (colorBuffer r') =
       (fun _ => 0xff000000) <$> GetPix (GetSizeX (colorBuffer r) - 1) py (colorBuffer r)) /\
  (GetSizeY (colorBuffer r) mod tilesPerRow r <> 0 ->
   forall px, 0 <= px < GetSizeX (colorBuffer r) ->
     GetPix px (GetSizeY (colorBuffer r) - 1) (colorBuffer r') =
       (fun _ => 0xff000000) <$> GetPix px (GetSizeY (colorBuffer r) - 1) (colorBuffer r)).
Proof.
  intros Htyped HT Hrun. apply Render_strict_Some in Hrun as (_ & ->).
  cbn [colorBuffer withBuffer]. split.
  - intros Hrem py Hpy.
    assert (HW : 0 < GetSizeX (colorBuffer r)).
    { destruct Htyped as (HW & _).
      destruct (Z.eq_dec (GetSizeX (colorBuffer r)) 0) as [E|]; [|lia].
      rewrite E, Z.mod_0_l in Hrem by lia. congruence. }
    apply (paint_GetPix r camera _ py Htyped); [lia|exact Hpy|].
    intros t Ht ((_ & Hx) & _).
    destruct (tileBounds_inside r t Htyped Ht) as ((_ & _ & _ & Hlast) & _).
    specialize (Hlast Hrem). lia.
  - intros Hrem px Hpx.
    assert (HH : 0 < GetSizeY (colorBuffer r)).
    { destruct Htyped as (_ & HH & _).
      destruct (Z.eq_dec (GetSizeY (colorBuffer r)) 0) as [E|]; [|lia].
      rewrite E, Z.mod_0_l in Hrem by lia. congruence. }
    apply (paint_GetPix r camera px _ Htyped Hpx); [lia|].
    intros t Ht (_ & (_ & Hy)).
    destruct (tileBounds_inside r t Htyped Ht) as (_ & (_ & _ & _ & Hlast)).
    specialize (Hlast Hrem). lia.
Qed.

(** X23.  An image narrower or lower than [tilesPerRow] pixels: every
    tile is without pixels.  When [tilesPerRow * tilesPerRow] is an
    [int] and the allocator grants a vector of that many elements and
    one of [samplesPerPixel] elements, [Render] returns and leaves the
    framebuffer filled with [0xff000000], whatever the scene. *)
Theorem X23_Render_of_a_small_image capacity fuel heap camera r :
  0 <= GetSizeX (colorBuffer r) < tilesPerRow r \/
  0 <= GetSizeY (colorBuffer r) < tilesPerRow r ->
  tilesNum r <= Strict.INT_MAX ->
  tilesNum r <= capacity ->
  samplesPerPixel r <= capacity ->
  exists r',
    Strict.Render capacity fuel heap camera r = Some r' /\
    colorBuffer r' = FillColor 0xff000000 (colorBuffer r).
Proof.
  intros Hsmall Hint Hcap Hacc.
  assert (Hempty : forall t, maxX (tileBounds r t) <= minX (tileBounds r t) \/
                             maxY (tileBounds r t) <= minY (tileBounds r t)).
  { intros t. unfold tileBounds. cbv zeta. cbn [minX maxX minY maxY].
    assert (Hstrip : forall k S, 0 <= S < tilesPerRow r ->
              u32 (u32 (k * S) / tilesPerRow r + S / tilesPerRow r)
              <= u32 (k * S) / tilesPerRow r).
    { intros k S HS. rewrite (Z.div_small S) by lia. rewrite Z.add_0_r.
      pose proof (u32_bounds (k * S)) as Hb.
      assert (0 <= u32 (k * S) / tilesPerRow r) by (apply Z.div_pos; lia).
      assert (u32 (k * S) / tilesPerRow r <= u32 (k * S)).
      { apply Z.div_le_upper_bound; [lia|]. nia. }
      rewrite u32_small; lia. }
    destruct Hsmall as [HW|HH]; [left|right]; apply Hstrip; assumption. }
  rewrite Render_strict.
  assert (Hok : Closed.passDefined capacity r = true).
  { unfold Closed.passDefined.
    rewrite (proj2 (Z.leb_le _ _) Hint), (proj2 (Z.leb_le _ _) Hcap),
      (proj2 (Z.leb_le _ _) Hacc). cbn [andb].
    apply forallb_forall. intros t _. apply tileDefined_empty, Hempty. }
  rewrite Hok, Render_run. eexists. split; [reflexivity|].
  cbn [colorBuffer withBuffer]. apply paint_of_empty_tiles. intros t _. apply Hempty.
Qed.

(** X24.  When [tilesPerRow * tilesPerRow] is 0 in [uint32_t], for
    [tilesPerRow] 0 or 65536, [Render] goes through no tile: it returns
    with the framebuffer filled with [0xff000000]. *)
Theorem X24_Render_without_tiles fuel heap camera r :
  u32 (tilesPerRow r * tilesPerRow r) = 0 ->
  exists r',
    Render fuel heap camera r = Some r' /\
    colorBuffer r' = FillColor 0xff000000 (colorBuffer r).
Proof.
  intros Hnone. rewrite Render_run. eexists. split; [reflexivity|].
  cbn [colorBuffer withBuffer]. unfold Closed.paint, tilesNum. rewrite Hnone.
  reflexivity.
Qed.
End RendererProperties.

(* ================================================================== *)
(** ** Further properties: the threads of a pass *)

Section PassOfThreads.
Import YAM YAR Worker Pool.

Lemma step_owned p n e p' : owned p -> step p n e p' -> owned p'.
Proof.
  intros Hown Hstep m. destruct Hstep as [rest Hn Hfree | rest Hn | e rest Hn HnL HnU];
    cbn [holder todo]; rewrite length_insert.
  - intros [= <-]. eapply lookup_lt_Some, Hn.
  - discriminate.
  - apply Hown.
Qed.

Lemma reachable_owned p0 p : owned p0 -> reachable p0 p -> owned p.
Proof.
  intros H0. induction 1 as [|p n e p' _ IH Hstep]; [exact H0|].
  exact (step_owned _ _ _ _ IH Hstep).
Qed.

Lemma unfinished_thread (progs : list (list event)) :
  Forall (fun prog => prog = []) progs \/
  exists n e rest, progs !! n = Some (e :: rest).
Proof.
  induction progs as [|prog progs [IH | (n & e & rest & Hn)]].
  - left. constructor.
  - destruct prog as [|e rest].
    + left. constructor; [reflexivity|exact IH].
    + right. exists 0%nat, e, rest. reflexivity.
  - right. exists (S n), e, rest. exact Hn.
Qed.

(** A pool that respects the lock is at its end or can do a step. *)
Lemma respectful_progress p :
  respectful p -> owned p -> finished p \/ exists n e p', step p n e p'.
Proof.
  intros Inv Hown. destruct (holder p) as [n|] eqn:Hh.
  - right. destruct (lookup_lt_is_Some_2 (todo p) n (Hown n Hh)) as (prog & Hn).
    pose proof (Inv n prog Hn) as Hwell.
    rewrite Hh, bool_decide_eq_true_2 in Hwell by reflexivity.
    destruct prog as [|e rest]; [discriminate Hwell|].
    destruct e as [y x|k|k| |px py c|]; cbn in Hwell; try discriminate Hwell.
    + do 3 eexists. apply (step_other p n _ rest Hn); discriminate.
    + do 3 eexists. apply (step_unlock p n rest Hn).
  - destruct (unfinished_thread (todo p)) as [Hall | (n & e & rest & Hn)];
      [left; exact Hall|right].
    pose proof (Inv n _ Hn) as Hwell. rewrite Hh in Hwell. cbn in Hwell.
    destruct e as [y x|k|k| |px py c|]; cbn in Hwell; try discriminate Hwell.
    1-3: do 3 eexists; apply (step_other p n _ rest Hn); discriminate.
    do 3 eexists. apply (step_lock p n rest Hn Hh).
Qed.

(** From a pool that respects the lock the threads can be run to their
    ends, the owner of the lock first. *)
Lemma respectful_can_finish p :
  respectful p -> owned p -> exists p', reachable p p' /\ finished p'.
Proof.
  intros Inv Hown.
  assert (Hfree : exists p1, reachable p p1 /\ holder p1 = None /\
                             Forall (fun prog => wellLocked false prog = true) (todo p1)).
  { destruct (holder p) as [n|] eqn:Hh.
    - destruct (lookup_lt_is_Some_2 (todo p) n (Hown n Hh)) as (prog & Hn).
      pose proof (Inv n prog Hn) as Hwell.
      rewrite Hh, bool_decide_eq_true_2 in Hwell by reflexivity.
      destruct (thread_runs prog p n true Hn Hwell Hh) as (p1 & Hreach & Hnone & Htodo).
      exists p1. split; [exact Hreach|]. split; [exact Hnone|].
      rewrite Htodo. apply Forall_forall. intros prog' Hin.
      apply list_elem_of_lookup in Hin as (m & Hm).
      apply list_lookup_insert_Some in Hm as [(_ & <- & _) | (Hne & Hm)]; [reflexivity|].
      pose proof (Inv m prog' Hm) as Hwell'.
      rewrite Hh, bool_decide_eq_false_2 in Hwell' by congruence. exact Hwell'.
    - exists p. split; [apply reach_start|]. split; [exact Hh|].
      apply Forall_forall. intros prog Hin.
      apply list_elem_of_lookup in Hin as (m & Hm).
      pose proof (Inv m prog Hm) as Hwell. rewrite Hh in Hwell. exact Hwell. }
  destruct Hfree as (p1 & Hreach1 & Hnone & Hall).
  destruct (threads_run (length (todo p1)) p1 Hnone Hall) as (p2 & Hreach2 & _ & Htodo).
  exists p2. split; [eapply reachable_trans; eassumption|].
  unfold finished. rewrite Htodo, drop_all, app_nil_r.
  apply Forall_replicate. reflexivity.
Qed.

Context {defs : Defines} {scn : Scene}.

(** X25.  However the tiles are dealt to the threads of a pass and
    however the threads take turns, a pass that has come to its end has
    left the framebuffer that [Render] leaves when it takes the tiles in
    the order of their ids. *)
Theorem X25_any_schedule_paints_the_picture_of_Render fuel heap fuel' heap'
        (r : Renderer) (camera : Camera) tilesOf p :
  Spec.wellTyped r ->
  concat tilesOf ≡ₚ seqZ 0 (tilesNum r) ->
  reachable (start fuel heap r camera tilesOf) p ->
  finished p ->
  exists r',
    Render fuel' heap' camera r = Some r' /\ colorBuffer r' = buffer p.
Proof.
  intros Htyped Hdeal Hreach Hend.
  rewrite (parallel_pass_is_Render fuel heap fuel' heap' r camera tilesOf p
             Htyped Hdeal Hreach Hend).
  eexists. split; reflexivity.
Qed.

(** X26.  A pass never deadlocks on the lock of the framebuffer: in
    every state the threads can get into, either every thread is at its
    end or some thread can do its next event, and from every such state
    the pass can be run to its end. *)
Theorem X26_pass_never_deadlocks fuel heap (r : Renderer) (camera : Camera) tilesOf p :
  reachable (start fuel heap r camera tilesOf) p ->
  (finished p \/ exists n e p', step p n e p') /\
  (exists p', reachable p p' /\ finished p').
Proof.
  intros Hreach.
  pose proof (reachable_respectful _ _ (start_respectful fuel heap r camera tilesOf)
                                   Hreach) as Inv.
  assert (Hown : owned p).
  { apply (reachable_owned (start fuel heap r camera tilesOf)); [|exact Hreach].
    intros n Hn. discriminate Hn. }
  split; [apply respectful_progress | apply respectful_can_finish]; assumption.
Qed.
End PassOfThreads.

(* ================================================================== *)
(** ** The further properties at work on the small scene *)

Section FurtherWitnesses.
Import YAM YAR.
Existing Instance Demo.defines.
Existing Instance Demo.scene.

(** Two orthogonal unit vectors are near each other. *)
Lemma X7_witness :
  let a := mkVector3 (of_Z 1) (of_Z 0) (of_Z 0) in
  let b := mkVector3 (of_Z 0) (of_Z 1) (of_Z 0) in
  Length a = Length b /\ IsNear_default a b = true.
Proof.
  intros a b. split; [vm_compute; reflexivity|].
  unfold IsNear_default. rewrite (X7_IsNear_equal_lengths a b SmallNumber).
  - vm_compute. reflexivity.
  - vm_compute. reflexivity.
Defined.

(** The vector [(3, 0, 4)], of length 5. *)
Lemma X12_witness :
  let v := mkVector3 (of_Z 3) (of_Z 0) (of_Z 4) in
  fltb (Length v) SmallNumber = false /\
  Normal (neg v) = neg (Normal v).
Proof.
  intros v. split; [vm_compute; reflexivity|].
  apply (X12_Normal_of_the_opposite v). vm_compute. reflexivity.
Defined.

(** A white wall at distance 1 added before a red wall at distance 2:
    the pixel is white. *)
Lemma X13_witness :
  let far := Demo.wall (of_Z 2) Demo.towardsLight 0xffff0000 in
  let near := Demo.wall (of_Z 1) Demo.towardsLight Demo.white in
  let r := AddRenderable far (AddRenderable near (Demo.empty 4 4)) in
  let nearest := Demo.hit (of_Z 1) Demo.towardsLight Demo.white in
  Spec.reported r Demo.camera 0 0 nearest /\
  fltb (distance nearest) FLT_MAX = true /\
  SamplePixel r Demo.camera 0 0 = mkVector3 (of_Z 1) (of_Z 1) (of_Z 1).
Proof.
  intros far near r nearest.
  assert (Hrep : Spec.reported r Demo.camera 0 0 nearest).
  { exists near. split; [|reflexivity]. apply list_elem_of_In. left. reflexivity. }
  split; [exact Hrep|]. split; [reflexivity|].
  rewrite (X13_nearest_hit_is_shown r Demo.camera 0 0 nearest Hrep).
  - vm_compute. reflexivity.
  - reflexivity.
  - intros h (obj & Hin & Htrace). apply list_elem_of_In in Hin.
    destruct Hin as [<-|[<-|[]]]; injection Htrace as <-.
    + left. reflexivity.
    + right. vm_compute. reflexivity.
Defined.

(** A red wall at distance 2 added behind the white wall at distance
    1. *)
Lemma X14_witness :
  let r := Demo.walled 4 4 in
  let behind := Demo.wall (of_Z 2) Demo.towardsLight 0xffff0000 in
  SamplePixel (AddRenderable behind r) Demo.camera 0 0 = SamplePixel r Demo.camera 0 0.
Proof.
  intros r behind. apply (X14_added_object_behind_is_hidden behind r Demo.camera 0 0).
  right. exists (Demo.hit (of_Z 2) Demo.towardsLight 0xffff0000).
  split; [reflexivity|]. right.
  exists (Demo.hit (of_Z 1) Demo.towardsLight Demo.white). split.
  - exists (Demo.wall (of_Z 1) Demo.towardsLight Demo.white).
    split; [|reflexivity]. apply list_elem_of_In. left. reflexivity.
  - split; vm_compute; reflexivity.
Defined.

(** A renderer of 2 by 2 pixels with the settings of the constructor
    and one with two samples and adaptive sampling disabled. *)
Lemma X17_witness :
  let objs := [Demo.wall (of_Z 1) Demo.towardsLight Demo.white] in
  exists r1 r2,
    Strict.Render 64 0 Demo.noHeap Demo.camera
                  (mkRenderer (Buffer_new 2 2) 8 true 2 objs) = Some r1 /\
    Strict.Render 64 0 Demo.noHeap Demo.camera
                  (mkRenderer (Buffer_new 2 2) 2 false 2 objs) = Some r2 /\
    colorBuffer r1 = colorBuffer r2.
Proof.
  intros objs.
  assert (H1 : exists r1, Strict.Render 64 0 Demo.noHeap Demo.camera
                            (mkRenderer (Buffer_new 2 2) 8 true 2 objs) = Some r1)
    by returns.
  assert (H2 : exists r2, Strict.Render 64 0 Demo.noHeap Demo.camera
                            (mkRenderer (Buffer_new 2 2) 2 false 2 objs) = Some r2)
    by returns.
  destruct H1 as (r1 & E1). destruct H2 as (r2 & E2).
  exists r1, r2. split; [exact E1|]. split; [exact E2|].
  exact (X17_sampling_settings_do_not_matter 64 0 Demo.noHeap 64 0 Demo.noHeap
           Demo.camera _ _ _ _ _ _ _ r1 r2 E1 E2).
Defined.

(** The four middle pixels of an image of 4 by 4. *)
Lemma X18_witness :
  let r := Demo.walled 4 4 in
  let bounds := mkRenderBounds 1 1 3 3 in
  exists w buf',
    Strict.RenderWorker 64 0 Demo.noHeap r Demo.camera bounds (colorBuffer r)
      = Some (w, buf') /\
    GetPix 2 2 buf' = Some 0xffffffff.
Proof.
  intros r bounds.
  assert (Hrun : exists st, Strict.RenderWorker 64 0 Demo.noHeap r Demo.camera bounds
                              (colorBuffer r) = Some st) by returns.
  destruct Hrun as ([w buf'] & E). exists w, buf'. split; [exact E|].
  destruct (X18_RenderWorker_paints_its_bounds 64 0 Demo.noHeap r Demo.camera bounds
              (colorBuffer r) w buf' 2 2) as (Hin & _);
    try reflexivity; try (cbn; lia); [exact E|].
  rewrite Hin.
  - vm_compute. reflexivity.
  - unfold Spec.inBounds, bounds; cbn. lia.
Defined.


(** The last of the four tiles of an image of 2 by 2. *)
Lemma X20_witness :
  let r := mkRenderer (Buffer_new 2 2) 8 true 2
                      [Demo.wall (of_Z 1) Demo.towardsLight Demo.white] in
  exists w buf',
    RenderWorker 0 Demo.noHeap r Demo.camera (tileBounds r 3) (colorBuffer r)
      = Some (w, buf') /\
    Worker.Pixel 1 1 0xffffffff ∈ Worker.trace w /\
    0 <= 1 < GetSizeX (colorBuffer r) /\ 0 <= 1 < GetSizeY (colorBuffer r).
Proof.
  intros r.
  assert (Hrun : exists w buf',
             RenderWorker 0 Demo.noHeap r Demo.camera (tileBounds r 3) (colorBuffer r)
               = Some (w, buf') /\
             Worker.Pixel 1 1 0xffffffff ∈ Worker.trace w).
  { do 2 eexists. split; [vm_compute; reflexivity|].
    apply list_elem_of_In. cbn. tauto. }
  destruct Hrun as (w & buf' & E & Hin).
  exists w, buf'. split; [exact E|]. split; [exact Hin|].
  apply (X20_writes_stay_in_the_frame 0 Demo.noHeap r Demo.camera 3 (colorBuffer r)
           w buf' 1 1 0xffffffff);
    [|change (tilesNum r) with 4; lia|exact E|exact Hin].
  unfold Spec.wellTyped; cbn; lia.
Defined.

(** The white wall on 8 by 8 pixels in 8 by 8 tiles. *)
Lemma X21_witness :
  let r := Demo.walled 8 8 in
  exists r',
    Strict.Render 64 0 Demo.noHeap Demo.camera r = Some r' /\
    GetPix 5 3 (colorBuffer r') = Some 0xffffffff.
Proof.
  intros r.
  assert (Hrun : exists r', Strict.Render 64 0 Demo.noHeap Demo.camera r = Some r')
    by returns.
  destruct Hrun as (r' & E). exists r'. split; [exact E|].
  rewrite (X21_Render_paints_every_pixel 64 0 Demo.noHeap Demo.camera r r' 5 3);
    try exact E; try (cbn; lia); vm_compute; reflexivity.
Defined.

(** The white wall on 3 by 3 pixels in 2 by 2 tiles: the last column
    stays at the fill colour. *)
Lemma X22_witness :
  let r := mkRenderer (Buffer_new 3 3) 8 true 2
                      [Demo.wall (of_Z 1) Demo.towardsLight Demo.white] in
  GetSizeX (colorBuffer r) mod tilesPerRow r <> 0 /\
  exists r',
    Strict.Render 64 0 Demo.noHeap Demo.camera r = Some r' /\
    GetPix 2 0 (colorBuffer r') = Some 0xff000000.
Proof.
  intros r. split; [discriminate|].
  assert (Hrun : exists r', Strict.Render 64 0 Demo.noHeap Demo.camera r = Some r')
    by returns.
  destruct Hrun as (r' & E). exists r'. split; [exact E|].
  destruct (X22_Render_leaves_the_ragged_edge 64 0 Demo.noHeap Demo.camera r r')
    as (Hcol & _).
  - unfold Spec.wellTyped; cbn; lia.
  - reflexivity.
  - exact E.
  - change 2 with (GetSizeX (colorBuffer r) - 1) at 1.
    rewrite (Hcol ltac:(discriminate) 0 ltac:(lia)). reflexivity.
Defined.

(** The white wall on 4 by 4 pixels with the 8 tiles per row of the
    constructor, on a machine that grants vectors of 64 elements:
    nothing of the wall is rendered. *)
Lemma X23_witness :
  let r := Demo.walled 4 4 in
  tilesPerRow r = 8 /\
  exists r',
    Strict.Render 64 0 Demo.noHeap Demo.camera r = Some r' /\
    GetData (colorBuffer r') = replicate 16 0xff000000.
Proof.
  intros r. split; [reflexivity|].
  destruct (X23_Render_of_a_small_image 64 0 Demo.noHeap Demo.camera r)
    as (r' & E & Hbuf).
  - left. cbn. lia.
  - vm_compute. discriminate.
  - vm_compute. discriminate.
  - cbn. lia.
  - exists r'. split; [exact E|]. rewrite Hbuf. reflexivity.
Defined.

(** 65536 tiles per row. *)
Lemma X24_witness :
  let r := mkRenderer (Buffer_new 2 2) 8 true 65536
                      [Demo.wall (of_Z 1) Demo.towardsLight Demo.white] in
  exists r',
    Render 0 Demo.noHeap Demo.camera r = Some r' /\
    GetData (colorBuffer r') = replicate 4 0xff000000.
Proof.
  intros r.
  destruct (X24_Render_without_tiles 0 Demo.noHeap Demo.camera r) as (r' & E & Hbuf).
  - reflexivity.
  - exists r'. split; [exact E|]. rewrite Hbuf. reflexivity.
Defined.

(** Two threads, the first with the tiles 3 and 0, the second with 1
    and 2, taking turns until both are at their ends. *)
Lemma X25_witness :
  let r := mkRenderer (Buffer_new 2 2) 8 true 2
                      [Demo.wall (of_Z 1) Demo.towardsLight Demo.white] in
  let p0 := Pool.start 0 Demo.noHeap r Demo.camera [[3; 0]; [1; 2]] in
  exists p r',
    Pool.reachable p0 p /\ Pool.finished p /\
    Render 0 Demo.noHeap Demo.camera r = Some r' /\
    colorBuffer r' = Pool.buffer p.
Proof.
  intros r p0.
  pose proof (Pool.reach_start p0) as R.
  do 3 fire 1%nat. do 9 fire 0%nat. do 5 fire 1%nat. do 13 fire 0%nat.
  do 14 fire 1%nat.
  match type of R with Pool.reachable _ ?p => assert (Hend : Pool.finished p) end.
  { repeat constructor. }
  match type of R with Pool.reachable _ ?p => exists p end.
  destruct (X25_any_schedule_paints_the_picture_of_Render 0 Demo.noHeap 0 Demo.noHeap
              r Demo.camera [[3; 0]; [1; 2]] _ ltac:(unfold Spec.wellTyped; cbn; lia)
              ltac:(vm_compute; apply (Permutation_cons_append [0; 1; 2] 3)) R Hend)
    as (r' & E & Hbuf).
  exists r'. auto.
Defined.

(** Thread 1 owns the lock, thread 0 has taken a sample: the pass can
    be run to its end from there. *)
Lemma X26_witness :
  let r := mkRenderer (Buffer_new 2 2) 8 true 2
                      [Demo.wall (of_Z 1) Demo.towardsLight Demo.white] in
  let p0 := Pool.start 0 Demo.noHeap r Demo.camera [[0; 1]; [2; 3]] in
  exists p,
    Pool.reachable p0 p /\ Pool.holder p = Some 1%nat /\
    exists p', Pool.reachable p p' /\ Pool.finished p'.
Proof.
  intros r p0.
  pose proof (Pool.reach_start p0) as R.
  fire 0%nat. do 9 fire 1%nat.
  match type of R with Pool.reachable _ ?p => exists p end.
  split; [exact R|]. split; [reflexivity|].
  exact (proj2 (X26_pass_never_deadlocks 0 Demo.noHeap r Demo.camera
                                         [[0; 1]; [2; 3]] _ R)).
Defined.
End FurtherWitnesses.
